(** * Landsat index engine, statistics, colour scaling and batch driver

    A shallow embedding of [Processing/analysis.py]
    (class [SimpleLandsatAnalysis]) and the properties of its
    index computations.

    Numeric model.  The program computes in IEEE binary64.  Here a float64
    value is a [cell]: [None] is not-a-number, [Some q] is the finite value
    [q], and arithmetic on finite values is exact rational arithmetic
    (rounding is idealised away).  Infinities are not represented: the
    program keeps the result of a division only where the divisor was
    tested positive.  Integer rasters are grids of [Z]. *)

From Stdlib Require Import String Ascii.
From Stdlib Require Import List ZArith QArith Qround Qabs Lqa Lia Bool.
From Stdlib Require Import Sorted Permutation.
From Stdlib Require Import Floats Uint63.
Import ListNotations.

Local Open Scope Q_scope.

(** ** Exceptions *)

Inductive exn : Type :=
| IndexError
| ValueError
| RasterioIOError.

Inductive result (A : Type) : Type :=
| Ok (a : A)
| Raise (e : exn).

Arguments Ok {A} a.
Arguments Raise {A} e.

Definition bind {A B : Type} (c : result A) (k : A -> result B) : result B :=
  match c with
  | Ok a => k a
  | Raise e => Raise e
  end.

Notation "x <- c ;; k" := (bind c (fun x => k))
  (at level 61, c at next level, right associativity).

(** ** float64 cells *)

Module Float.

Definition cell : Type := option Q.

Definition nan : cell := None.

Definition Qltb (x y : Q) : bool := negb (Qle_bool y x).

Definition qmax (x y : Q) : Q := if Qltb x y then y else x.
Definition qmin (x y : Q) : Q := if Qltb y x then y else x.

Definition lift2 (f : Q -> Q -> Q) (a b : cell) : cell :=
  match a, b with
  | Some x, Some y => Some (f x y)
  | _, _ => None
  end.

Definition fadd : cell -> cell -> cell := lift2 Qplus.
Definition fsub : cell -> cell -> cell := lift2 Qminus.
Definition fmul : cell -> cell -> cell := lift2 Qmult.

(** [x / 0] is an infinity or nan in binary64; every caller discards it. *)
Definition fdiv (a b : cell) : cell :=
  match a, b with
  | Some x, Some y => if Qeq_bool y 0 then None else Some (x / y)
  | _, _ => None
  end.

(** Comparisons with nan are false. *)
Definition flt (a b : cell) : bool :=
  match a, b with
  | Some x, Some y => Qltb x y
  | _, _ => false
  end.

Definition fgt (a b : cell) : bool := flt b a.

Definition feqb (a b : cell) : bool :=
  match a, b with
  | Some x, Some y => Qeq_bool x y
  | _, _ => false
  end.

(** [arr.astype(np.float64)] on an integer. *)
Definition astype_float64 (z : Z) : cell := Some (inject_Z z).

(** Equality of cells up to the representation of a rational. *)
Definition cell_eq (a b : cell) : Prop :=
  match a, b with
  | Some x, Some y => x == y
  | None, None => True
  | _, _ => False
  end.

End Float.

Import Float.

(** ** Grids (2-D arrays, row-major) *)

Definition grid (A : Type) : Type := list (list A).

Definition grid_map {A B : Type} (f : A -> B) (g : grid A) : grid B :=
  map (map f) g.

Fixpoint zip_with {A B C : Type} (f : A -> B -> C) (l : list A) (m : list B)
  : list C :=
  match l, m with
  | x :: l', y :: m' => f x y :: zip_with f l' m'
  | _, _ => []
  end.

Definition grid_map2 {A B C : Type} (f : A -> B -> C)
  (g : grid A) (h : grid B) : grid C :=
  zip_with (zip_with f) g h.

Definition pixel {A : Type} (g : grid A) (i j : nat) : option A :=
  match nth_error g i with
  | Some row => nth_error row j
  | None => None
  end.

Definition shape {A : Type} (g : grid A) : list nat := map (@length A) g.

Definition ravel {A : Type} (g : grid A) : list A := concat g.

Definition grid_eq (g h : grid cell) : Prop := Forall2 (Forall2 cell_eq) g h.

(** ** The NumPy primitives the program calls *)

Module Np.

(** [arr[~np.isnan(arr)]]: the finite values, flattened in row-major order. *)
Definition finite (l : list cell) : list Q :=
  flat_map (fun c => match c with Some x => [x] | None => [] end) l.

Definition valid_values (g : grid cell) : list Q := finite (ravel g).

(** [np.where(cond, a, b)], one element. *)
Definition where_ {A : Type} (cond : bool) (a b : A) : A :=
  if cond then a else b.

(** [np.clip(a, lo, hi)] is [minimum(maximum(a, lo), hi)]; nan stays nan. *)
Definition clip (a : cell) (lo hi : Q) : cell :=
  option_map (fun x => qmin (qmax x lo) hi) a.

Definition full_like {A : Type} (g : grid A) (v : cell) : grid cell :=
  grid_map (fun _ => v) g.

Fixpoint insert (x : Q) (l : list Q) : list Q :=
  match l with
  | [] => [x]
  | y :: l' => if Qle_bool x y then x :: l else y :: insert x l'
  end.

Fixpoint sort (l : list Q) : list Q :=
  match l with
  | [] => []
  | x :: l' => insert x (sort l')
  end.

Definition sum (l : list Q) : Q := fold_right Qplus 0 l.

Definition of_nat (n : nat) : Q := inject_Z (Z.of_nat n).

(** [np.mean]: nan on an empty array. *)
Definition mean (a : list Q) : cell :=
  match a with
  | [] => nan
  | _ => Some (sum a / of_nat (length a))
  end.

(** [np.percentile(a, q)] with the default linear interpolation: the virtual
    index [(q/100) * (n-1)] into the sorted array, interpolated between its
    two neighbours.  On an empty array NumPy releases differ (nan with a
    warning, or an IndexError); the model takes the raising one, so that the
    [len(...)] guards of the callers carry weight. *)
Definition percentile (a : list Q) (q : Q) : result Q :=
  match a with
  | [] => Raise IndexError
  | _ =>
      let s := sort a in
      let n := length a in
      let virtual_index := (q / 100) * of_nat (n - 1) in
      let previous := Z.to_nat (Qfloor virtual_index) in
      let next := Nat.min (previous + 1) (n - 1) in
      let gamma := virtual_index - of_nat previous in
      let lo := nth previous s 0 in
      let hi := nth next s 0 in
      Ok (lo + (hi - lo) * gamma)
  end.

(** [np.median]: the middle of the sorted array, or the mean of the two
    middle elements; nan on an empty array. *)
Definition median (a : list Q) : cell :=
  match a with
  | [] => nan
  | _ =>
      let s := sort a in
      let n := length a in
      if Nat.even n
      then Some ((nth (n / 2 - 1) s 0 + nth (n / 2) s 0) / 2)
      else Some (nth (n / 2) s 0)
  end.

(** [np.min] and [np.max] raise ValueError on an empty array. *)
Definition min (a : list Q) : result Q :=
  match a with
  | [] => Raise ValueError
  | x :: l => Ok (fold_left qmin l x)
  end.

Definition max (a : list Q) : result Q :=
  match a with
  | [] => Raise ValueError
  | x :: l => Ok (fold_left qmax l x)
  end.

(** Population variance: the mean of the squared deviations from the mean
    ([ddof = 0], division by [n]). *)
Definition var (a : list Q) : Q :=
  let m := sum a / of_nat (length a) in
  sum (map (fun x => (x - m) * (x - m)) a) / of_nat (length a).

(** Square root on rationals: the root itself when the argument is the
    square of a rational, otherwise the root rounded down to a multiple of
    [1 / (den * 2^52)].  It is taken of variances only, which are not
    negative. *)
Definition sqrt (q : Q) : Q :=
  let n := Qnum q in
  let d := Zpos (Qden q) in
  Qmake (Z.sqrt (n * d * 2 ^ 104)) (Qden q * 2 ^ 52).

(** [np.std]: the square root of the population variance; nan on an empty
    array. *)
Definition std (a : list Q) : cell :=
  match a with
  | [] => nan
  | _ => Some (sqrt (var a))
  end.

End Np.

(** ** Index engine *)

(** [simple_lst_calculation(self, thermal_dn)] *)
Definition simple_lst_calculation (thermal_dn : grid Z) : result (grid cell) :=
  let thermal_clean := grid_map astype_float64 thermal_dn in
  let thermal_clean :=
    grid_map (fun c => Np.where_ (feqb c (Some 0)) nan c) thermal_clean in
  let valid_thermal := Np.valid_values thermal_clean in
  if (length valid_thermal =? 0)%nat then Ok thermal_clean else
  min_dn <- Np.percentile valid_thermal 1 ;;
  max_dn <- Np.percentile valid_thermal 99 ;;
  let '(temp_min, temp_max) :=
    if flt (Np.mean valid_thermal) (Some 35000) then (10, 45) else (15, 50) in
  let dn_range := max_dn - min_dn in
  let lst_celsius :=
    if Qltb 0 dn_range then
      let normalized :=
        grid_map
          (fun c => Np.clip (fdiv (fsub c (Some min_dn)) (Some dn_range)) 0 1)
          thermal_clean in
      grid_map
        (fun n => fadd (Some temp_min) (fmul n (Some (temp_max - temp_min))))
        normalized
    else Np.full_like thermal_clean (Some ((temp_min + temp_max) / 2)) in
  Ok (grid_map
        (fun c => Np.where_ (flt c (Some (-50)) || fgt c (Some 80)) nan c)
        lst_celsius).

(** The body of [simple_ndvi_calculation] on one pixel: its array
    operations are all elementwise. *)
Definition ndvi_cell (red_dn nir_dn : Z) : cell :=
  let red := astype_float64 red_dn in
  let nir := astype_float64 nir_dn in
  let red := Np.where_ (feqb red (Some 0)) nan red in
  let nir := Np.where_ (feqb nir (Some 0)) nan nir in
  let denominator := fadd nir red in
  let ndvi :=
    Np.where_ (fgt denominator (Some 0)) (fdiv (fsub nir red) denominator) nan in
  Np.clip ndvi (-1) 1.

(** [simple_ndvi_calculation(self, red_dn, nir_dn)]; both bands come from one
    raster and have one shape. *)
Definition simple_ndvi_calculation (red_dn nir_dn : grid Z)
  : result (grid cell) :=
  Ok (grid_map2 ndvi_cell red_dn nir_dn).

(** [simple_uhi_calculation(self, lst_data)] *)
Definition simple_uhi_calculation (lst_data : grid cell) : result (grid cell) :=
  let valid_lst := Np.valid_values lst_data in
  if (length valid_lst =? 0)%nat then Ok (Np.full_like lst_data nan) else
  let rural_temp := Np.median valid_lst in
  let uhi := grid_map (fun c => fsub c rural_temp) lst_data in
  Ok uhi.

(** ** Strings and insertion-ordered dictionaries *)

Module Py.

Local Open Scope string_scope.

(** [needle in hay] *)
Fixpoint str_in (needle hay : string) : bool :=
  if String.prefix needle hay then true
  else match hay with
       | EmptyString => false
       | String _ hay' => str_in needle hay'
       end.

(** [s.endswith(suffix)] *)
Fixpoint endswith (s suffix : string) : bool :=
  if String.eqb s suffix then true
  else match s with
       | EmptyString => false
       | String _ s' => endswith s' suffix
       end.

(** [s.replace(old, new)] for a non-empty [old]: every occurrence, scanning
    from the left; [skip] counts the characters of a match still to drop. *)
Fixpoint replace_from (skip : nat) (old new s : string) : string :=
  match s with
  | EmptyString => EmptyString
  | String c s' =>
      match skip with
      | S k => replace_from k old new s'
      | O =>
          if String.prefix old s
          then new ++ replace_from (String.length old - 1) old new s'
          else String c (replace_from O old new s')
      end
  end.

Definition replace (s old new : string) : string := replace_from O old new s.

(** [sorted] on strings: ascending by code point. *)
Fixpoint insert_str (x : string) (l : list string) : list string :=
  match l with
  | [] => [x]
  | y :: l' => if String.leb x y then x :: l else y :: insert_str x l'
  end.

Fixpoint sorted (l : list string) : list string :=
  match l with
  | [] => []
  | x :: l' => insert_str x (sorted l')
  end.

(** [os.path.join] of a directory that is not empty and does not end in a
    separator with a relative name; paths serve as labels only. *)
Definition path_join (a b : string) : string := a ++ "/" ++ b.

(** A [dict] keeps its keys in order of first insertion; assigning to a key
    already present replaces the value in place. *)
Definition dict (V : Type) : Type := list (string * V).

Fixpoint dict_set {V : Type} (d : dict V) (k : string) (v : V) : dict V :=
  match d with
  | [] => [(k, v)]
  | (k', v') :: d' =>
      if String.eqb k' k then (k, v) :: d' else (k', v') :: dict_set d' k v
  end.

Fixpoint dict_get {V : Type} (d : dict V) (k : string) : option V :=
  match d with
  | [] => None
  | (k', v') :: d' => if String.eqb k' k then Some v' else dict_get d' k
  end.

(** [d.update(other)] *)
Definition dict_update {V : Type} (d other : dict V) : dict V :=
  fold_left (fun acc kv => dict_set acc (fst kv) (snd kv)) other d.

Definition dict_keys {V : Type} (d : dict V) : list string := map fst d.
Definition dict_values {V : Type} (d : dict V) : list V := map snd d.

(** [bands[i]] *)
Definition getitem {A : Type} (l : list A) (i : nat) : result A :=
  match nth_error l i with
  | Some a => Ok a
  | None => Raise IndexError
  end.

End Py.

Import Py.

(** ** Visualization renderer: the colour range *)

(** [create_simple_plot(self, data, title, ...)], observed through the
    [vmin] and [vmax] it passes to [plt.imshow]; [None] is Python's [None],
    the plotting library's default. *)
Definition create_simple_plot (data : grid cell) (title : string)
  : result (option Q * option Q) :=
  let valid_data := Np.valid_values data in
  if str_in "LST" title || str_in "Temperature" title then
    if (0 <? length valid_data)%nat then
      p2 <- Np.percentile valid_data 2 ;;
      let vmin := qmax 15 p2 in
      p98 <- Np.percentile valid_data 98 ;;
      let vmax := qmin 60 p98 in
      Ok (Some vmin, Some vmax)
    else Ok (Some 15, Some 50)
  else if str_in "UHI" title then
    if (0 <? length valid_data)%nat then
      p2 <- Np.percentile valid_data 2 ;;
      p98 <- Np.percentile valid_data 98 ;;
      let abs_max := qmax (Qabs p2) (Qabs p98) in
      let vmin := - qmin abs_max 12 in
      let vmax := qmin abs_max 12 in
      Ok (Some vmin, Some vmax)
    else Ok (Some (-8), Some 8)
  else
    if (0 <? length valid_data)%nat then
      vmin <- Np.percentile valid_data 5 ;;
      vmax <- Np.percentile valid_data 95 ;;
      Ok (Some vmin, Some vmax)
    else Ok (None, None).

(** The title [save_outputs] gives the plot of each analysis type. *)
Definition plot_title (period analysis_type : string) : string :=
  if String.eqb analysis_type "LST" then
    ("Land Surface Temperature - " ++ period)%string
  else if String.eqb analysis_type "UHI" then
    ("Urban Heat Island - " ++ period)%string
  else ("NDVI - " ++ period)%string.

(** [save_outputs(self, data, profile, period, analysis_type)], observed
    through the colour range of the image it renders; the raster and image
    files themselves are outside the model. *)
Definition save_outputs (data : grid cell) (period analysis_type : string)
  : result (option Q * option Q) :=
  let title := plot_title period analysis_type in
  create_simple_plot data title.

(** ** Statistics aggregator *)

Inductive value : Type :=
| VFloat (c : cell)
| VStr (s : string).

(** One of the three blocks of [calculate_simple_stats]: the source repeats
    it for [LST], [NDVI] and [UHI]. *)
Definition index_stats (name : string) (data : grid cell) (stats : dict value)
  : result (dict value) :=
  let valid := Np.valid_values data in
  if (0 <? length valid)%nat then
    vmin <- Np.min valid ;;
    let stats := dict_set stats (name ++ "_min")%string (VFloat (Some vmin)) in
    vmax <- Np.max valid ;;
    let stats := dict_set stats (name ++ "_max")%string (VFloat (Some vmax)) in
    let stats := dict_set stats (name ++ "_mean")%string (VFloat (Np.mean valid)) in
    let stats := dict_set stats (name ++ "_std")%string (VFloat (Np.std valid)) in
    Ok stats
  else
    Ok (dict_update stats
          (map (fun k => ((name ++ "_" ++ k)%string, VFloat nan))
               ["min"; "max"; "mean"; "std"]%string)).

(** [calculate_simple_stats(self, lst, ndvi, uhi)] *)
Definition calculate_simple_stats (lst ndvi uhi : grid cell)
  : result (dict value) :=
  let stats := [] in
  stats <- index_stats "LST" lst stats ;;
  stats <- index_stats "NDVI" ndvi stats ;;
  stats <- index_stats "UHI" uhi stats ;;
  Ok stats.


(** ** Scene processor and batch driver *)

(** [SimpleLandsatAnalysis.__init__] *)
Record SimpleLandsatAnalysis : Type := {
  base_dir : string;
  clipped_dir : string;
  output_dir : string
}.

Definition init (base_dir : string) : SimpleLandsatAnalysis :=
  {| base_dir := base_dir;
     clipped_dir := path_join base_dir "Clipped_Images";
     output_dir := path_join base_dir "Simple_Analysis_Results" |}.

(** What the program reads from the file system: the listing of the
    directory of clipped images, and for each path the bands of the raster
    there or the exception [rasterio.open] raises. *)
Record World : Type := {
  listdir : list string;
  rasterio_read : string -> result (list (grid Z))
}.

(** [band.min()] and [band.max()] on an integer array. *)
Definition int_min (a : list Z) : result Z :=
  match a with
  | [] => Raise ValueError
  | x :: l => Ok (fold_left Z.min l x)
  end.

Definition int_max (a : list Z) : result Z :=
  match a with
  | [] => Raise ValueError
  | x :: l => Ok (fold_left Z.max l x)
  end.

(** The range [print] of [process_image] formats for one band:
    [band[band>0].min()] and [band.max()]. *)
Definition dn_range_report (band : grid Z) : result (Z * Z) :=
  lo <- int_min (filter (fun z => (0 <? z)%Z) (ravel band)) ;;
  hi <- int_max (ravel band) ;;
  Ok (lo, hi).

(** [process_image(self, image_path, period)]; the files it writes are
    outside the model. *)
Definition process_image (w : World) (image_path period : string)
  : result (dict value) :=
  bands <- rasterio_read w image_path ;;
  red_dn <- getitem bands 3 ;;
  nir_dn <- getitem bands 4 ;;
  thermal_dn <- getitem bands 7 ;;
  _ <- dn_range_report red_dn ;;
  _ <- dn_range_report nir_dn ;;
  _ <- dn_range_report thermal_dn ;;
  lst <- simple_lst_calculation thermal_dn ;;
  ndvi <- simple_ndvi_calculation red_dn nir_dn ;;
  uhi <- simple_uhi_calculation lst ;;
  _ <- save_outputs lst period "LST" ;;
  _ <- save_outputs ndvi period "NDVI" ;;
  _ <- save_outputs uhi period "UHI" ;;
  stats <- calculate_simple_stats lst ndvi uhi ;;
  let stats := dict_set stats "Period" (VStr period) in
  Ok stats.

(** The period label and the path of one discovered file. *)
Definition period_of (image_file : string) : string :=
  replace image_file "_clipped_NGP.tif" "".

(** One turn of the loop of [run_analysis]: the [try] ... [except Exception]
    around [process_image]. *)
Definition run_scene (self : SimpleLandsatAnalysis) (w : World)
  (all_stats : dict (dict value)) (image_file : string)
  : dict (dict value) :=
  let period := period_of image_file in
  let image_path := path_join (clipped_dir self) image_file in
  match process_image w image_path period with
  | Ok stats => dict_set all_stats period stats
  | Raise _ => all_stats
  end.

(** [run_analysis(self)], observed through the rows of the summary table it
    writes to [Analysis_Summary.csv]; [None]: no summary file is written.
    [setup_directories] only creates output directories and is outside the
    model. *)
Definition run_analysis (self : SimpleLandsatAnalysis) (w : World)
  : result (option (list (dict value))) :=
  let image_files := filter (fun f => endswith f ".tif") (listdir w) in
  match image_files with
  | [] => Ok None
  | _ =>
      let all_stats := fold_left (run_scene self w) (sorted image_files) [] in
      match all_stats with
      | [] => Ok None
      | _ => Ok (Some (dict_values all_stats))
      end
  end.


(** ** The vegetation index in binary64

    The same function on primitive binary64 floats, to check the worked
    example without the idealisation of the arithmetic. *)

Module Binary64.

Local Open Scope float_scope.

Definition astype_float64 (z : Z) : float :=
  if (z <? 0)%Z then - of_uint63 (Uint63.of_Z (- z))
  else of_uint63 (Uint63.of_Z z).

Definition clip (x lo hi : float) : float :=
  if is_nan x then x
  else
    let m := if x <? lo then lo else x in
    if hi <? m then hi else m.

Definition ndvi_cell (red_dn nir_dn : Z) : float :=
  let red := astype_float64 red_dn in
  let nir := astype_float64 nir_dn in
  let red := if red =? 0 then PrimFloat.nan else red in
  let nir := if nir =? 0 then PrimFloat.nan else nir in
  let denominator := nir + red in
  let ndvi := if 0 <? denominator then (nir - red) / denominator else PrimFloat.nan in
  clip ndvi (-1) 1.

End Binary64.

(** ** Per-pixel reading of the temperature estimate *)

(** The digital values the estimate calls valid: the non-zero ones. *)
Definition nonzero_values (g : grid Z) : list Q :=
  map inject_Z (filter (fun z => negb (z =? 0)%Z) (ravel g)).

(** Lines 34-35 on one pixel. *)
Definition clean_cell (z : Z) : cell :=
  Np.where_ (feqb (astype_float64 z) (Some 0)) nan (astype_float64 z).

(** Lines 51-54. *)
Definition regime (valid : list Q) : Q * Q :=
  if flt (Np.mean valid) (Some 35000) then (10, 45) else (15, 50).

(** Line 65 on one pixel. *)
Definition plausible_cell (c : cell) : cell :=
  Np.where_ (flt c (Some (-50)) || fgt c (Some 80)) nan c.

(** Lines 57-65 on one pixel. *)
Definition lst_cell (temp_min temp_max min_dn max_dn : Q) (z : Z) : cell :=
  let dn_range := max_dn - min_dn in
  plausible_cell
    (if Qltb 0 dn_range then
       fadd (Some temp_min)
         (fmul
            (Np.clip (fdiv (fsub (clean_cell z) (Some min_dn)) (Some dn_range))
               0 1)
            (Some (temp_max - temp_min)))
     else Some ((temp_min + temp_max) / 2)).

(** A grid with no valid pixel. *)
Definition all_invalid (g : grid cell) : Prop :=
  Forall (Forall (fun c => c = nan)) g.

Definition all_zero (g : grid Z) : Prop :=
  Forall (Forall (fun z => z = 0%Z)) g.

(** What the statistics table holds for one index grid: the extremes, the
    mean and the population standard deviation of the valid pixels, or four
    nan markers when there is none. *)
Definition summarises (stats : dict value) (name : string) (data : grid cell)
  : Prop :=
  let valid := Np.valid_values data in
  (valid <> [] ->
   exists lo hi,
     (In lo valid /\ forall y, In y valid -> lo <= y) /\
     (In hi valid /\ forall y, In y valid -> y <= hi) /\
     dict_get stats (name ++ "_min") = Some (VFloat (Some lo)) /\
     dict_get stats (name ++ "_max") = Some (VFloat (Some hi)) /\
     dict_get stats (name ++ "_mean")
       = Some (VFloat (Some (Np.sum valid / Np.of_nat (length valid)))) /\
     dict_get stats (name ++ "_std")
       = Some (VFloat (Some (Np.sqrt (Np.var valid))))) /\
  (valid = [] ->
   forall k, In k ["_min"; "_max"; "_mean"; "_std"]%string ->
     dict_get stats (name ++ k) = Some (VFloat nan)).

(** ** The batch driver's contract *)

(** The discovered scene files, in processing order. *)
Definition scene_files (w : World) : list string :=
  sorted (filter (fun f => endswith f ".tif") (listdir w)).






(** Two readable one-pixel rasters whose file names give one period label. *)
Definition colliding_world : World :=
  {| listdir := ["A.tif"; "A.tif_clipped_NGP.tif"]%string;
     rasterio_read := fun _ => Ok (repeat [[1%Z]] 8) |}.

(** Three scene files; opening the second raises. *)
Definition second_fails_world : World :=
  {| listdir :=
       ["s1_clipped_NGP.tif"; "s2_clipped_NGP.tif"; "s3_clipped_NGP.tif"]%string;
     rasterio_read :=
       fun path =>
         if String.eqb path "base/Clipped_Images/s2_clipped_NGP.tif"
         then Raise RasterioIOError
         else Ok (repeat [[1%Z]] 8) |}.

(** ** Comparing grids pixel by pixel *)

(** The same shape, and at every position the same value up to the
    representation of a rational. *)
Definition same_pixels (g h : grid cell) : Prop :=
  forall i j,
    match pixel g i j, pixel h i j with
    | Some x, Some y => cell_eq x y
    | None, None => True
    | _, _ => False
    end.

(** ** The raster written by [save_outputs] *)

Definition isnan (c : cell) : bool :=
  match c with
  | Some _ => false
  | None => true
  end.

(** Line 174 of [save_outputs]: nan replaced by the sentinel. *)
Definition save_data (data : grid cell) : grid cell :=
  grid_map (fun c => Np.where_ (isnan c) (Some (-9999)) c) data.

(** Line 185: [dst.write(save_data.astype(np.float32), 1)], the grid that
    is written.  The rounding to binary32 is the parameter
    [astype_float32]. *)
Definition written_raster (astype_float32 : Q -> Q) (data : grid cell)
  : grid cell :=
  grid_map (option_map astype_float32) (save_data data).

(** What is used of the rounding to binary32: it never reverses the order
    of two values, and it leaves the integers up to 2^24 as they are. *)
Definition rounds_like_float32 (astype_float32 : Q -> Q) : Prop :=
  (forall x y, x <= y -> astype_float32 x <= astype_float32 y) /\
  (forall z : Z, (Z.abs z <= 16777216)%Z ->
     astype_float32 (inject_Z z) == inject_Z z).

(** A rounding of that kind: down to ten binary digits after the point. *)
Definition round_to_1024ths (x : Q) : Q := inject_Z (Qfloor (x * 1024)) / 1024.

(** The sentinel marks the invalid pixels of [data] and no other in the
    written raster, and a valid pixel is written as its rounded value. *)
Definition sentinel_unambiguous (astype_float32 : Q -> Q) (data : grid cell)
  : Prop :=
  shape (written_raster astype_float32 data) = shape data /\
  forall i j c, pixel data i j = Some c ->
    exists s, pixel (written_raster astype_float32 data) i j = Some (Some s) /\
              (s == -9999 <-> c = nan) /\
              (forall x, c = Some x -> s = astype_float32 x).

(** The four statistics of one index are numbers, the extremes are in
    order and the deviation is not negative.  Nothing is said of the place
    of the mean between the extremes: [np.mean] rounds, and may leave them
    by a unit in the last place. *)
Definition stats_ordered (stats : dict value) (name : string) : Prop :=
  exists lo hi mean sd,
    dict_get stats (name ++ "_min") = Some (VFloat (Some lo)) /\
    dict_get stats (name ++ "_max") = Some (VFloat (Some hi)) /\
    dict_get stats (name ++ "_mean") = Some (VFloat (Some mean)) /\
    dict_get stats (name ++ "_std") = Some (VFloat (Some sd)) /\
    lo <= hi /\ 0 <= sd.

(** ** Further parts of the scene processor and batch driver *)

(** A band with a pixel above zero. *)
Definition has_positive (band : grid Z) : Prop :=
  exists z, In z (ravel band) /\ (0 < z)%Z.

(** The columns of a scene's statistics row, in order. *)
Definition stats_keys : list string :=
  ["LST_min"; "LST_max"; "LST_mean"; "LST_std";
   "NDVI_min"; "NDVI_max"; "NDVI_mean"; "NDVI_std";
   "UHI_min"; "UHI_max"; "UHI_mean"; "UHI_std"; "Period"]%string.

(** [setup_directories(self)], observed through the directories it creates
    ([exist_ok=True]: an existing directory is no error). *)
Definition setup_directories (self : SimpleLandsatAnalysis) (w : World)
  : list string :=
  let image_files := filter (fun f => endswith f ".tif") (listdir w) in
  let periods := map (fun f => replace f "_clipped_NGP.tif" "") image_files in
  output_dir self :: map (fun period => path_join (output_dir self) period) periods.

(** The directory [process_image] and [save_outputs] write a scene's files
    to. *)
Definition period_dir (self : SimpleLandsatAnalysis) (period : string)
  : string :=
  path_join (output_dir self) period.

(** A readable raster whose thermal band (offset 7) is all zero. *)
Definition zero_thermal_world : World :=
  {| listdir := ["s1_clipped_NGP.tif"]%string;
     rasterio_read :=
       fun _ => Ok (repeat [[1%Z]] 7 ++ [[[0%Z]]]) |}.

(** The dictionary [run_analysis] has collected when its loop ends. *)
Definition collected (self : SimpleLandsatAnalysis) (w : World)
  : dict (dict value) :=
  fold_left (run_scene self w) (scene_files w) [].


(** The name [clip_with_shapefile.py] (line 127) gives the clipped raster of
    a period: [f"{period}_clipped_NGP.tif"]. *)
Definition clipped_name (period : string) : string :=
  (period ++ "_clipped_NGP.tif")%string.

(** The three scenes of [second_fails_world], listed in another order. *)
Definition second_fails_world_reversed : World :=
  {| listdir := rev (listdir second_fails_world);
     rasterio_read := rasterio_read second_fails_world |}.

(** ** Band merging ([merge_and_join_bands.py]) *)

Module Merge.

(** [f"_B{i}.TIF"] for [i] in [range(1, 11)]. *)
Definition band_tags : list string :=
  ["_B1.TIF"; "_B2.TIF"; "_B3.TIF"; "_B4.TIF"; "_B5.TIF";
   "_B6.TIF"; "_B7.TIF"; "_B8.TIF"; "_B9.TIF"; "_B10.TIF"]%string.

(** Lines 27-31 of [merge_bands_for_row]: the band files in the order in
    which they are stacked, from the paths [glob.glob] returned. *)
Definition band_files (globbed : list string) : list string :=
  filter (fun f => existsb (fun tag => str_in tag f) band_tags)
    (sorted globbed).

(** [merge_bands_for_row(row_folder)], observed through the files whose
    first band it writes to the merged raster, in band order; [None]: no
    band file, nothing is written.  Reading and writing the rasters is
    outside the model. *)
Definition merge_bands_for_row (globbed : list string) : option (list string) :=
  match band_files globbed with
  | [] => None
  | files => Some files
  end.

(** The ten band files of one scene, in the order of their band number, and
    in the order of their paths. *)
Definition by_number (scene : string) : list string :=
  map (append scene) band_tags.

Definition by_path (scene : string) : list string :=
  map (append scene)
    ["_B1.TIF"; "_B10.TIF"; "_B2.TIF"; "_B3.TIF"; "_B4.TIF";
     "_B5.TIF"; "_B6.TIF"; "_B7.TIF"; "_B8.TIF"; "_B9.TIF"]%string.

End Merge.

(** ** True-colour preview ([simple_rgb.py]) *)

Module Rgb.

(** One pixel of the stacked image: red, green, blue. *)
Definition colour : Type := (cell * cell * cell)%type.

Definition white : colour := (Some 1, Some 1, Some 1).

(** [band.astype(np.float32)]: exact on the 16-bit samples of a band. *)
Definition astype_float32 (z : Z) : Q := inject_Z z.

(** Line 20: [(red > 0) & (green > 0) & (blue > 0)]. *)
Definition valid_mask (red green blue : grid Q) : grid bool :=
  grid_map2 andb
    (grid_map2 andb (grid_map (Qltb 0) red) (grid_map (Qltb 0) green))
    (grid_map (Qltb 0) blue).

(** [np.sum(mask)]: the number of true pixels. *)
Definition count_true (mask : grid bool) : nat :=
  length (filter (fun b : bool => b) (ravel mask)).

(** [np.where(mask)]: the positions of the true pixels, row by row. *)
Fixpoint where_row (i j : nat) (row : list bool) : list (nat * nat) :=
  match row with
  | [] => []
  | b :: row' => (if b then [(i, j)] else []) ++ where_row i (S j) row'
  end.

Fixpoint where_from (i : nat) (mask : grid bool) : list (nat * nat) :=
  match mask with
  | [] => []
  | row :: mask' => where_row i 0 row ++ where_from (S i) mask'
  end.

Definition np_where (mask : grid bool) : list (nat * nat) := where_from 0 mask.

(** [arr.shape[0]] and [arr.shape[1]] of a 2-D array. *)
Definition height {A : Type} (g : grid A) : nat := length g.

Definition width {A : Type} (g : grid A) : nat :=
  match g with
  | [] => 0
  | row :: _ => length row
  end.

(** [arr[r0:r1, c0:c1]] for indices that are not negative. *)
Definition crop {A : Type} (g : grid A) (r0 r1 c0 c1 : nat) : grid A :=
  map (fun row => firstn (c1 - c0) (skipn c0 row))
    (firstn (r1 - r0) (skipn r0 g)).

(** [band[mask]]: the values at the true positions, row by row. *)
Definition boolean_index (band : grid Q) (mask : grid bool) : list Q :=
  map fst (filter snd (combine (ravel band) (ravel mask))).

(** One pixel of line 50, [np.clip((band - p2) / (p98 - p2), 0, 1)].  A zero
    span makes the quotient an infinity or nan, which [np.clip] takes to
    1, 0 or nan. *)
Definition stretch_cell (p2 p98 x : Q) : cell :=
  if Qeq_bool (p98 - p2) 0 then
    if Qltb p2 x then Some 1 else if Qltb x p2 then Some 0 else nan
  else Some (qmin (qmax ((x - p2) / (p98 - p2)) 0) 1).

(** The inner function [simple_stretch(band, mask)], lines 42-51. *)
Definition simple_stretch (band : grid Q) (mask : grid bool)
  : result (grid cell) :=
  if (count_true mask =? 0)%nat then Ok (grid_map Some band) else
  let valid_pixels := boolean_index band mask in
  p2 <- Np.percentile valid_pixels 2 ;;
  p98 <- Np.percentile valid_pixels 98 ;;
  let stretched := grid_map (stretch_cell p2 p98) band in
  Ok stretched.

(** Lines 24-33: the bounds of the study area, padded by 20 pixels and kept
    inside the image: [(row_min, row_max, col_min, col_max)]. *)
Definition study_area (valid_mask : grid bool) (shape0 shape1 : nat)
  : result (Z * Z * Z * Z) :=
  let positions := np_where valid_mask in
  let rows := map (fun p => Z.of_nat (fst p)) positions in
  let cols := map (fun p => Z.of_nat (snd p)) positions in
  row_min <- int_min rows ;;
  row_max <- int_max rows ;;
  col_min <- int_min cols ;;
  col_max <- int_max cols ;;
  let padding := 20%Z in
  let row_min := Z.max 0 (row_min - padding) in
  let row_max := Z.min (Z.of_nat shape0) (row_max + padding) in
  let col_min := Z.max 0 (col_min - padding) in
  let col_max := Z.min (Z.of_nat shape1) (col_max + padding) in
  Ok (row_min, row_max, col_min, col_max).

(** Lines 36-60: crop, stretch, stack, and paint the invalid pixels white. *)
Definition render (red green blue : grid Q) (valid_mask : grid bool)
  (area : Z * Z * Z * Z) : result (grid colour) :=
  let '(row_min, row_max, col_min, col_max) := area in
  let r0 := Z.to_nat row_min in
  let r1 := Z.to_nat row_max in
  let c0 := Z.to_nat col_min in
  let c1 := Z.to_nat col_max in
  let red_crop := crop red r0 r1 c0 c1 in
  let green_crop := crop green r0 r1 c0 c1 in
  let blue_crop := crop blue r0 r1 c0 c1 in
  let valid_crop := crop valid_mask r0 r1 c0 c1 in
  red_stretched <- simple_stretch red_crop valid_crop ;;
  green_stretched <- simple_stretch green_crop valid_crop ;;
  blue_stretched <- simple_stretch blue_crop valid_crop ;;
  let rgb :=
    grid_map2 (fun rg b => (fst rg, snd rg, b))
      (grid_map2 pair red_stretched green_stretched) blue_stretched in
  let rgb :=
    grid_map2 (fun px (valid : bool) => if valid then px else white)
      rgb valid_crop in
  Ok rgb.

(** [src.read(k)]: band [k], counted from 1. *)
Definition read_band (bands : list (grid Z)) (k : nat) : result (grid Z) :=
  getitem bands (k - 1).

(** [create_simple_rgb(input_path, output_path, title, satellite)], observed
    through the array it passes to [plt.imshow]; [None]: no image is
    produced (no valid pixel, or an exception, which the function catches
    and reports).  The bands of one raster share a shape, so the
    element-wise operations pair the pixels position by position. *)
Definition create_simple_rgb (w : World) (input_path : string)
  : option (grid colour) :=
  let attempt : result (option (grid colour)) :=
    bands <- rasterio_read w input_path ;;
    red <- read_band bands 4 ;;
    green <- read_band bands 3 ;;
    blue <- read_band bands 2 ;;
    let red := grid_map astype_float32 red in
    let green := grid_map astype_float32 green in
    let blue := grid_map astype_float32 blue in
    let valid_mask := valid_mask red green blue in
    if (0 <? count_true valid_mask)%nat then
      area <- study_area valid_mask (height red) (width red) ;;
      rgb <- render red green blue valid_mask area ;;
      Ok (Some rgb)
    else Ok None in
  match attempt with
  | Ok image => image
  | Raise _ => None
  end.

(** A 2-D array: every row has the width of the first. *)
Definition rectangular {A : Type} (g : grid A) : Prop :=
  forall row, In row g -> length row = width g.

(** A channel value an image can show: nan, or between 0 and 1. *)
Definition displayable (c : cell) : Prop :=
  match c with
  | Some x => 0 <= x <= 1
  | None => True
  end.

End Rgb.

(** A readable scene of eight 2x3 bands in which only the pixel in the
    second row, third column is positive in every band. *)
Definition corner_world : World :=
  {| listdir := ["Jan 2023_clipped_NGP.tif"]%string;
     rasterio_read :=
       fun _ => Ok (repeat [[0; 0; 0]; [0; 300; 700]]%Z 3
                    ++ [[[0; 5; 0]; [0; 0; 900]]%Z]
                    ++ repeat [[0; 0; 0]; [0; 0; 800]]%Z 4) |}.

(** ** Exception isolation in the batch driver *)




(** * Properties *)

(** ** Comparisons and clamping *)

Lemma Qltb_lt (x y : Q) : Qltb x y = true <-> x < y.
Proof.
  unfold Qltb. rewrite negb_true_iff.
  split; intro H.
  - apply Qnot_le_lt. intro Hle. apply Qle_bool_iff in Hle. congruence.
  - destruct (Qle_bool y x) eqn:E; [|reflexivity].
    apply Qle_bool_iff in E. lra.
Qed.

Lemma Qltb_ge (x y : Q) : Qltb x y = false <-> y <= x.
Proof.
  unfold Qltb. rewrite negb_false_iff. apply Qle_bool_iff.
Qed.

Lemma qmax_cases (x y : Q) :
  (x < y /\ qmax x y = y) \/ (y <= x /\ qmax x y = x).
Proof.
  unfold qmax. destruct (Qltb x y) eqn:E.
  - left. apply Qltb_lt in E. auto.
  - right. apply Qltb_ge in E. auto.
Qed.

Lemma qmin_cases (x y : Q) :
  (y < x /\ qmin x y = y) \/ (x <= y /\ qmin x y = x).
Proof.
  unfold qmin. destruct (Qltb y x) eqn:E.
  - left. apply Qltb_lt in E. auto.
  - right. apply Qltb_ge in E. auto.
Qed.

Lemma clamp_bounds (x lo hi : Q) :
  lo <= hi -> lo <= qmin (qmax x lo) hi <= hi.
Proof.
  intro H.
  destruct (qmax_cases x lo) as [[? ->]|[? ->]];
    [destruct (qmin_cases lo hi) as [[? ->]|[? ->]]
    |destruct (qmin_cases x hi) as [[? ->]|[? ->]]]; lra.
Qed.

Lemma clip_bounds (a : cell) (lo hi v : Q) :
  lo <= hi -> Np.clip a lo hi = Some v -> lo <= v <= hi.
Proof.
  intros H E. destruct a as [x|]; simpl in E; [|discriminate].
  injection E as <-. now apply clamp_bounds.
Qed.

(** ** Sorting and percentiles *)

Lemma insert_perm (x : Q) (l : list Q) : Permutation (x :: l) (Np.insert x l).
Proof.
  induction l as [|y l IH]; cbn [Np.insert]; [reflexivity|].
  destruct (Qle_bool x y); [reflexivity|].
  rewrite perm_swap. now apply perm_skip.
Qed.

Lemma sort_perm (l : list Q) : Permutation l (Np.sort l).
Proof.
  induction l as [|x l IH]; cbn [Np.sort]; [reflexivity|].
  rewrite <- insert_perm. now apply perm_skip.
Qed.

Lemma insert_sorted (x : Q) (l : list Q) :
  Sorted Qle l -> Sorted Qle (Np.insert x l).
Proof.
  induction 1 as [|y l Hs IH Hhd]; cbn [Np.insert]; [repeat constructor|].
  destruct (Qle_bool x y) eqn:E.
  - apply Qle_bool_iff in E. repeat constructor; auto.
  - assert (Hyx : y <= x) by (apply Qlt_le_weak, Qltb_lt; unfold Qltb; now rewrite E).
    constructor; [exact IH|].
    destruct Hhd as [|z l Hyz]; cbn [Np.insert]; [now constructor|].
    destruct (Qle_bool x z); now constructor.
Qed.

Lemma sort_sorted (l : list Q) : Sorted Qle (Np.sort l).
Proof.
  induction l as [|x l IH]; cbn [Np.sort]; [constructor|].
  now apply insert_sorted.
Qed.

Lemma sort_length (l : list Q) : length (Np.sort l) = length l.
Proof. symmetry. apply Permutation_length, sort_perm. Qed.

Lemma sort_constant (v : Q) (l : list Q) :
  Forall (eq v) l -> Np.sort l = l.
Proof.
  induction 1 as [|x l Hx Hl IH]; cbn [Np.sort]; [reflexivity|].
  rewrite IH. destruct l as [|y l]; [reflexivity|].
  cbn [Np.insert]. destruct (Qle_bool x y) eqn:E; [reflexivity|].
  inversion Hl; subst.
  assert (y <= y) as Hv by lra. apply Qle_bool_iff in Hv. congruence.
Qed.

Lemma nth_constant (v : Q) (l : list Q) (k : nat) :
  Forall (eq v) l -> (k < length l)%nat -> nth k l 0 = v.
Proof.
  intros H Hk. rewrite Forall_forall in H. symmetry. apply H.
  now apply nth_In.
Qed.

Lemma of_nat_nonneg (n : nat) : 0 <= Np.of_nat n.
Proof.
  unfold Np.of_nat. change 0 with (inject_Z 0). rewrite <- Zle_Qle. lia.
Qed.

(** The percentiles of an array of one repeated value are that value. *)
Lemma percentile_constant (v q : Q) (a : list Q) :
  a <> [] -> Forall (eq v) a -> 0 <= q <= 100 ->
  exists p, Np.percentile a q = Ok p /\ p == v.
Proof.
  intros Hne Hall Hq. destruct a as [|x l]; [congruence|].
  unfold Np.percentile. eexists. split; [reflexivity|].
  rewrite (sort_constant v) by exact Hall.
  set (n := length (x :: l)).
  set (virt := q / 100 * Np.of_nat (n - 1)).
  assert (Hk : (Z.to_nat (Qfloor virt) <= n - 1)%nat).
  { assert (Hv : virt <= Np.of_nat (n - 1)).
    { unfold virt. pose proof (of_nat_nonneg (n - 1)) as H0.
      assert (Hd : q / 100 <= 1) by (apply Qle_shift_div_r; lra).
      assert (Hd0 : 0 <= q / 100) by (apply Qle_shift_div_l; lra).
      nra. }
    apply Qfloor_resp_le in Hv. unfold Np.of_nat in Hv.
    rewrite Qfloor_Z in Hv. lia. }
  assert (Hn : (0 < n)%nat) by (unfold n; cbn [length]; lia).
  rewrite !(nth_constant v) by (auto; fold n; lia).
  ring.
Qed.

(** ** Grids *)

Lemma nth_error_map_some {A B : Type} (f : A -> B) (l : list A) (n : nat) :
  nth_error (map f l) n = option_map f (nth_error l n).
Proof.
  revert n. induction l as [|a l IH]; intros [|n]; simpl; auto.
Qed.

Lemma pixel_grid_map {A B : Type} (f : A -> B) (g : grid A) (i j : nat) :
  pixel (grid_map f g) i j = option_map f (pixel g i j).
Proof.
  unfold pixel, grid_map. rewrite nth_error_map_some.
  destruct (nth_error g i) as [row|]; simpl; [|reflexivity].
  apply nth_error_map_some.
Qed.

Lemma shape_grid_map {A B : Type} (f : A -> B) (g : grid A) :
  shape (grid_map f g) = shape g.
Proof.
  unfold shape, grid_map. rewrite map_map.
  apply map_ext. intro row. apply length_map.
Qed.

Lemma grid_map_map {A B C : Type} (f : A -> B) (h : B -> C) (g : grid A) :
  grid_map h (grid_map f g) = grid_map (fun a => h (f a)) g.
Proof.
  unfold grid_map. rewrite map_map. apply map_ext. intro row. apply map_map.
Qed.

Lemma grid_map_ext {A B : Type} (f h : A -> B) (g : grid A) :
  (forall a, f a = h a) -> grid_map f g = grid_map h g.
Proof.
  intro H. unfold grid_map. apply map_ext. intro row. now apply map_ext.
Qed.

Lemma pixel_in_ravel {A : Type} (g : grid A) (i j : nat) (a : A) :
  pixel g i j = Some a -> In a (ravel g).
Proof.
  unfold pixel, ravel. intro H.
  destruct (nth_error g i) as [row|] eqn:E; [|discriminate].
  apply in_concat. exists row. split; eauto using nth_error_In.
Qed.

Lemma in_finite (l : list cell) (x : Q) : In x (Np.finite l) <-> In (Some x) l.
Proof.
  unfold Np.finite. rewrite in_flat_map. split.
  - intros [[y|] [Hin Hx]]; simpl in Hx; [|contradiction].
    destruct Hx as [->|[]]. exact Hin.
  - intro H. exists (Some x). simpl. auto.
Qed.

Lemma pixel_valid (g : grid cell) (i j : nat) (x : Q) :
  pixel g i j = Some (Some x) -> In x (Np.valid_values g).
Proof.
  intro H. apply in_finite. eapply pixel_in_ravel; eauto.
Qed.

Lemma finite_all_nan (l : list cell) :
  Np.finite l = [] <-> Forall (fun c => c = nan) l.
Proof.
  induction l as [|[x|] l IH]; simpl.
  - split; auto.
  - split; [discriminate|]. intro H. inversion H. discriminate.
  - rewrite IH. split; intro H; [constructor; auto|now inversion H].
Qed.

(** ** Temperature estimate *)

Lemma clean_cell_eq (z : Z) :
  clean_cell z = if (z =? 0)%Z then nan else Some (inject_Z z).
Proof.
  unfold clean_cell, astype_float64, feqb, Np.where_, Qeq_bool. simpl.
  now rewrite Z.mul_1_r.
Qed.

Lemma finite_app (l m : list cell) :
  Np.finite (l ++ m) = Np.finite l ++ Np.finite m.
Proof. unfold Np.finite. apply flat_map_app. Qed.

Lemma valid_values_clean (g : grid Z) :
  Np.valid_values (grid_map clean_cell g) = nonzero_values g.
Proof.
  unfold Np.valid_values, nonzero_values, ravel, grid_map.
  induction g as [|row g IH]; simpl; [reflexivity|].
  rewrite finite_app, filter_app, map_app, IH. f_equal.
  clear IH. induction row as [|z row IH]; simpl; [reflexivity|].
  rewrite clean_cell_eq. destruct (z =? 0)%Z; simpl; now rewrite IH.
Qed.

Lemma percentile_total (a : list Q) (q : Q) :
  a <> [] -> exists p, Np.percentile a q = Ok p.
Proof.
  destruct a as [|x a]; [congruence|]. intros _. eexists. reflexivity.
Qed.

Lemma simple_lst_calculation_empty (g : grid Z) :
  nonzero_values g = [] ->
  simple_lst_calculation g = Ok (grid_map clean_cell g).
Proof.
  intro H. unfold simple_lst_calculation.
  rewrite grid_map_map. fold clean_cell.
  change (grid_map (fun a => clean_cell a) g) with (grid_map clean_cell g).
  rewrite valid_values_clean, H. reflexivity.
Qed.

Lemma simple_lst_calculation_nonempty (g : grid Z) :
  nonzero_values g <> [] ->
  exists min_dn max_dn,
    Np.percentile (nonzero_values g) 1 = Ok min_dn /\
    Np.percentile (nonzero_values g) 99 = Ok max_dn /\
    simple_lst_calculation g =
      Ok (grid_map
            (lst_cell (fst (regime (nonzero_values g)))
               (snd (regime (nonzero_values g))) min_dn max_dn) g).
Proof.
  intro H.
  destruct (percentile_total _ 1 H) as [min_dn Hmin].
  destruct (percentile_total _ 99 H) as [max_dn Hmax].
  exists min_dn, max_dn. repeat split; auto.
  unfold simple_lst_calculation.
  rewrite grid_map_map. fold clean_cell.
  change (grid_map (fun a => clean_cell a) g) with (grid_map clean_cell g).
  rewrite valid_values_clean.
  destruct (nonzero_values g) as [|x l] eqn:E; [congruence|].
  cbn [length Nat.eqb]. rewrite Hmin, Hmax. cbn [bind].
  unfold regime.
  destruct (flt (Np.mean (x :: l)) (Some 35000)); cbn [fst snd];
    (destruct (Qltb 0 (max_dn - min_dn)) eqn:Er;
     [ | unfold Np.full_like ]; rewrite !grid_map_map;
     f_equal; apply grid_map_ext; intro z; unfold lst_cell; rewrite Er;
     reflexivity).
Qed.

Lemma flt_some (x y : Q) : flt (Some x) (Some y) = Qltb x y.
Proof. reflexivity. Qed.

Lemma plausible_cell_keep (v : Q) :
  -50 <= v <= 80 -> plausible_cell (Some v) = Some v.
Proof.
  intros [Hlo Hhi]. unfold plausible_cell, fgt, Np.where_.
  rewrite !flt_some.
  apply Qltb_ge in Hlo. apply Qltb_ge in Hhi. now rewrite Hlo, Hhi.
Qed.

Lemma plausible_cell_some (c : cell) (v : Q) :
  plausible_cell c = Some v -> c = Some v /\ -50 <= v <= 80.
Proof.
  unfold plausible_cell, fgt, Np.where_. destruct c as [x|]; [|discriminate].
  rewrite !flt_some.
  destruct (Qltb x (-50)) eqn:Elo; [discriminate|].
  destruct (Qltb 80 x) eqn:Ehi; [discriminate|].
  simpl. intro H. injection H as <-.
  apply Qltb_ge in Elo. apply Qltb_ge in Ehi. auto.
Qed.

Lemma regime_cases (valid : list Q) :
  regime valid = (10, 45) \/ regime valid = (15, 50).
Proof.
  unfold regime. destruct (flt (Np.mean valid) (Some 35000)); auto.
Qed.

Lemma lst_cell_plausible (temp_min temp_max min_dn max_dn : Q) (z : Z) (v : Q) :
  lst_cell temp_min temp_max min_dn max_dn z = Some v -> -50 <= v <= 80.
Proof.
  unfold lst_cell. intro H. now apply plausible_cell_some in H.
Qed.

Lemma lst_cell_within_regime
  (temp_min temp_max min_dn max_dn : Q) (z : Z) (v : Q) :
  temp_min <= temp_max ->
  lst_cell temp_min temp_max min_dn max_dn z = Some v ->
  temp_min <= v <= temp_max.
Proof.
  intros Hr H. unfold lst_cell in H.
  apply plausible_cell_some in H. destruct H as [H _].
  destruct (Qltb 0 (max_dn - min_dn)).
  - destruct (Np.clip _ 0 1) as [n|] eqn:En; [|discriminate].
    apply clip_bounds in En; [|lra].
    simpl in H. injection H as <-. nra.
  - injection H as <-.
    split; [apply Qle_shift_div_l|apply Qle_shift_div_r]; lra.
Qed.

Lemma lst_cell_remap (temp_min temp_max min_dn max_dn : Q) (z : Z) :
  0 < max_dn - min_dn -> z <> 0%Z ->
  -50 <= temp_min -> temp_min <= temp_max -> temp_max <= 80 ->
  lst_cell temp_min temp_max min_dn max_dn z =
    Some (temp_min
          + qmin (qmax ((inject_Z z - min_dn) / (max_dn - min_dn)) 0) 1
            * (temp_max - temp_min)).
Proof.
  intros Hr Hz H1 H2 H3. unfold lst_cell.
  apply Qltb_lt in Hr as Hb. rewrite Hb.
  rewrite clean_cell_eq. apply Z.eqb_neq in Hz. rewrite Hz.
  cbn [fsub fdiv lift2].
  destruct (Qeq_bool (max_dn - min_dn) 0) eqn:E.
  { apply Qeq_bool_iff in E. lra. }
  cbn [Np.clip option_map fmul fadd lift2].
  apply plausible_cell_keep.
  pose proof (clamp_bounds ((inject_Z z - min_dn) / (max_dn - min_dn)) 0 1)
    as Hn.
  assert (0 <= 1) as H01 by lra. specialize (Hn H01). nra.
Qed.

Lemma lst_cell_midpoint (temp_min temp_max min_dn max_dn : Q) (z : Z) :
  ~ 0 < max_dn - min_dn ->
  -50 <= (temp_min + temp_max) / 2 <= 80 ->
  lst_cell temp_min temp_max min_dn max_dn z = Some ((temp_min + temp_max) / 2).
Proof.
  intros Hr Hm. unfold lst_cell.
  destruct (Qltb 0 (max_dn - min_dn)) eqn:E.
  - apply Qltb_lt in E. contradiction.
  - now apply plausible_cell_keep.
Qed.

(** Clamping the value to the percentile span and then normalising is the
    normalised value clipped to [0, 1]. *)
Lemma normalize_clamp (x a b : Q) :
  0 < b - a ->
  qmin (qmax ((x - a) / (b - a)) 0) 1 == (qmin (qmax x a) b - a) / (b - a).
Proof.
  intro Hr.
  set (t := (x - a) / (b - a)).
  assert (Ht : t * (b - a) == x - a) by (unfold t; field; lra).
  assert (Hd : forall y, y / (b - a) * (b - a) == y) by (intro y; field; lra).
  destruct (qmax_cases x a) as [[Hxa ->]|[Hxa ->]].
  - (* x < a *)
    destruct (qmin_cases a b) as [[? ->]|[_ ->]]; [lra|].
    destruct (qmax_cases t 0) as [[_ ->]|[Ht0 ->]]; [|nra].
    destruct (qmin_cases 0 1) as [[? ->]|[_ ->]]; [lra|].
    field. lra.
  - destruct (qmin_cases x b) as [[Hxb ->]|[Hxb ->]].
    + (* b < x *)
      destruct (qmax_cases t 0) as [[? ->]|[_ ->]]; [nra|].
      destruct (qmin_cases t 1) as [[_ ->]|[? ->]]; [field; lra|nra].
    + destruct (qmax_cases t 0) as [[? ->]|[_ ->]]; [nra|].
      destruct (qmin_cases t 1) as [[? ->]|[_ ->]]; [nra|].
      reflexivity.
Qed.

Lemma lst_pixel_cases (g : grid Z) :
  exists out,
    simple_lst_calculation g = Ok out /\
    forall i j v, pixel out i j = Some (Some v) ->
      exists min_dn max_dn z,
        pixel g i j = Some z /\
        lst_cell (fst (regime (nonzero_values g)))
          (snd (regime (nonzero_values g))) min_dn max_dn z = Some v.
Proof.
  destruct (nonzero_values g) as [|x l] eqn:E.
  - exists (grid_map clean_cell g). split.
    + now apply simple_lst_calculation_empty.
    + intros i j v H. apply pixel_valid in H.
      rewrite valid_values_clean, E in H. contradiction.
  - assert (Hne : nonzero_values g <> []) by (rewrite E; discriminate).
    destruct (simple_lst_calculation_nonempty g Hne)
      as (min_dn & max_dn & _ & _ & Hout).
    rewrite E in Hout. eexists. split; [exact Hout|].
    intros i j v H. rewrite pixel_grid_map in H.
    destruct (pixel g i j) as [z|]; [|discriminate].
    simpl in H. injection H as H. eauto.
Qed.

(** C1: every valid pixel of the temperature estimate lies in [-50, 80];
    the estimate is produced for every thermal grid, and no pixel outside
    the interval is emitted. *)
Theorem lst_output_plausible (thermal_dn : grid Z) :
  exists out,
    simple_lst_calculation thermal_dn = Ok out /\
    forall i j v, pixel out i j = Some (Some v) -> -50 <= v <= 80.
Proof.
  destruct (lst_pixel_cases thermal_dn) as (out & Hout & Hpix).
  exists out. split; [exact Hout|].
  intros i j v H. destruct (Hpix i j v H) as (a & b & z & _ & Hc).
  eapply lst_cell_plausible; eauto.
Qed.

(** C1 at the grid [[0, 5, 7, 40000]]: the pixel of value 5 maps to 10. *)
Lemma lst_output_plausible_witness :
  exists out v,
    simple_lst_calculation [[0; 5; 7; 40000]]%Z = Ok out /\
    pixel out 0 1 = Some (Some v) /\ v = 10 /\ -50 <= v <= 80.
Proof.
  destruct (lst_output_plausible [[0; 5; 7; 40000]]%Z) as (out & Hout & Hpix).
  exists out, 10. split; [exact Hout|].
  assert (Hp : pixel out 0 1 = Some (Some 10)).
  { vm_compute in Hout. injection Hout as <-. reflexivity. }
  split; [exact Hp|]. split; [reflexivity|]. exact (Hpix _ _ _ Hp).
Defined.

(** C10: every valid pixel of the temperature estimate lies in [10, 50], the
    union of the two regime ranges [10, 45] and [15, 50]. *)
Theorem lst_output_within_regime_ranges (thermal_dn : grid Z) :
  exists out,
    simple_lst_calculation thermal_dn = Ok out /\
    forall i j v, pixel out i j = Some (Some v) -> 10 <= v <= 50.
Proof.
  destruct (lst_pixel_cases thermal_dn) as (out & Hout & Hpix).
  exists out. split; [exact Hout|].
  intros i j v H. destruct (Hpix i j v H) as (a & b & z & _ & Hc).
  destruct (regime_cases (nonzero_values thermal_dn)) as [E|E];
    rewrite E in Hc; cbn [fst snd] in Hc;
    apply lst_cell_within_regime in Hc; lra.
Qed.

(** C10 at the grid [[0, 5, 7, 40000]]: the pixel of value 40000 maps
    to 45. *)
Lemma lst_output_within_regime_ranges_witness :
  exists out v,
    simple_lst_calculation [[0; 5; 7; 40000]]%Z = Ok out /\
    pixel out 0 3 = Some (Some v) /\ v = 45 /\ 10 <= v <= 50.
Proof.
  destruct (lst_output_within_regime_ranges [[0; 5; 7; 40000]]%Z)
    as (out & Hout & Hpix).
  exists out, 45. split; [exact Hout|].
  assert (Hp : pixel out 0 3 = Some (Some 45)).
  { vm_compute in Hout. injection Hout as <-. reflexivity. }
  split; [exact Hp|]. split; [reflexivity|]. exact (Hpix _ _ _ Hp).
Defined.

(** C3, at the input [[0, 5]]: the only valid value is 5, the percentile
    span is 0, and the nodata pixel receives the midpoint 27.5 like every
    other pixel. *)
Theorem lst_nodata_filled_when_degenerate :
  pixel [[0; 5]]%Z 0 0 = Some 0%Z /\
  Np.percentile (nonzero_values [[0; 5]]%Z) 99
    = Np.percentile (nonzero_values [[0; 5]]%Z) 1 /\
  simple_lst_calculation [[0; 5]]%Z = Ok [[Some (55 # 2); Some (55 # 2)]] /\
  55 # 2 == 27.5.
Proof. repeat split. Qed.

(** Outside the degenerate branch a zero pixel is invalid in the output. *)
Lemma lst_nodata_invalid_otherwise
  (thermal_dn : grid Z) (out : grid cell) (i j : nat) :
  simple_lst_calculation thermal_dn = Ok out ->
  pixel thermal_dn i j = Some 0%Z ->
  (nonzero_values thermal_dn = [] \/
   exists min_dn max_dn,
     Np.percentile (nonzero_values thermal_dn) 1 = Ok min_dn /\
     Np.percentile (nonzero_values thermal_dn) 99 = Ok max_dn /\
     0 < max_dn - min_dn) ->
  pixel out i j = Some nan.
Proof.
  intros Hout Hz [He|(a & b & Ha & Hb & Hr)].
  - rewrite (simple_lst_calculation_empty _ He) in Hout.
    injection Hout as <-. rewrite pixel_grid_map, Hz. reflexivity.
  - assert (Hne : nonzero_values thermal_dn <> []).
    { intro E. rewrite E in Ha. discriminate. }
    destruct (simple_lst_calculation_nonempty _ Hne)
      as (a' & b' & Ha' & Hb' & Hout').
    assert (a' = a) by congruence. assert (b' = b) by congruence. subst.
    rewrite Hout' in Hout. injection Hout as <-.
    rewrite pixel_grid_map, Hz. cbn [option_map]. f_equal.
    unfold lst_cell. apply Qltb_lt in Hr. rewrite Hr. reflexivity.
Qed.

Lemma mean_nonempty (a : list Q) :
  a <> [] -> Np.mean a = Some (Np.sum a / Np.of_nat (length a)).
Proof. destruct a; [congruence|reflexivity]. Qed.

Lemma regime_below (valid : list Q) (m : Q) :
  Np.mean valid = Some m -> m < 35000 -> regime valid = (10, 45).
Proof.
  intros Hm H. unfold regime. rewrite Hm, flt_some.
  apply Qltb_lt in H. now rewrite H.
Qed.

Lemma regime_at_or_above (valid : list Q) (m : Q) :
  Np.mean valid = Some m -> 35000 <= m -> regime valid = (15, 50).
Proof.
  intros Hm H. unfold regime. rewrite Hm, flt_some.
  apply Qltb_ge in H. now rewrite H.
Qed.

(** C2: with at least one non-zero pixel, the regime range is chosen by the
    mean of the non-zero values against 35000; when the 1st-99th percentile
    span is positive each non-zero pixel is clamped to the span, normalised
    to [0, 1] and remapped linearly into the range; otherwise every pixel of
    the output is the midpoint of the range, 27.5 or 32.5. *)
Theorem lst_regime_remap (thermal_dn : grid Z) :
  nonzero_values thermal_dn <> [] ->
  exists (m min_dn max_dn temp_min temp_max : Q) (out : grid cell),
    Np.mean (nonzero_values thermal_dn) = Some m /\
    Np.percentile (nonzero_values thermal_dn) 1 = Ok min_dn /\
    Np.percentile (nonzero_values thermal_dn) 99 = Ok max_dn /\
    simple_lst_calculation thermal_dn = Ok out /\
    (m < 35000 -> temp_min = 10 /\ temp_max = 45) /\
    (35000 <= m -> temp_min = 15 /\ temp_max = 50) /\
    (0 < max_dn - min_dn ->
     forall i j z, pixel thermal_dn i j = Some z -> z <> 0%Z ->
       exists v,
         pixel out i j = Some (Some v) /\
         let clamped := qmin (qmax (inject_Z z) min_dn) max_dn in
         let normalized := (clamped - min_dn) / (max_dn - min_dn) in
         0 <= normalized <= 1 /\
         v == temp_min + normalized * (temp_max - temp_min)) /\
    (~ 0 < max_dn - min_dn ->
     forall i j z, pixel thermal_dn i j = Some z ->
       exists v,
         pixel out i j = Some (Some v) /\
         v == (temp_min + temp_max) / 2 /\
         (m < 35000 -> v == 27.5) /\
         (35000 <= m -> v == 32.5)).
Proof.
  intro Hne.
  destruct (simple_lst_calculation_nonempty _ Hne)
    as (min_dn & max_dn & Hmin & Hmax & Hout).
  pose proof (mean_nonempty _ Hne) as Hm.
  set (valid := nonzero_values thermal_dn) in *.
  set (m := Np.sum valid / Np.of_nat (length valid)) in *.
  exists m, min_dn, max_dn, (fst (regime valid)), (snd (regime valid)).
  eexists. split; [exact Hm|]. split; [exact Hmin|]. split; [exact Hmax|].
  split; [exact Hout|].
  split; [intro H; now rewrite (regime_below _ _ Hm H)|].
  split; [intro H; now rewrite (regime_at_or_above _ _ Hm H)|].
  assert (Hreg : -50 <= fst (regime valid)
                 /\ fst (regime valid) <= snd (regime valid)
                 /\ snd (regime valid) <= 80).
  { destruct (regime_cases valid) as [E|E]; rewrite E; cbn [fst snd]; lra. }
  destruct Hreg as (R1 & R2 & R3).
  split.
  - intros Hr i j z Hz Hnz.
    eexists. split.
    + rewrite pixel_grid_map, Hz. cbn [option_map]. f_equal.
      now apply lst_cell_remap.
    + cbv zeta. rewrite <- normalize_clamp by exact Hr.
      split; [|reflexivity].
      apply clamp_bounds. lra.
  - intros Hr i j z Hz.
    eexists. split.
    + rewrite pixel_grid_map, Hz. cbn [option_map]. f_equal.
      apply lst_cell_midpoint; [exact Hr|].
      destruct (regime_cases valid) as [E|E]; rewrite E; cbn [fst snd];
        split; (apply Qle_shift_div_l || apply Qle_shift_div_r); lra.
    + split; [reflexivity|].
      split; intro H;
        [rewrite (regime_below _ _ Hm H)|rewrite (regime_at_or_above _ _ Hm H)];
        reflexivity.
Qed.

(** C2 at the grid [[0, 5, 7, 40000]]. *)
Lemma lst_regime_remap_witness :
  nonzero_values [[0; 5; 7; 40000]]%Z <> [] /\
  exists (m min_dn max_dn temp_min temp_max : Q) (out : grid cell),
    Np.mean (nonzero_values [[0; 5; 7; 40000]]%Z) = Some m /\
    Np.percentile (nonzero_values [[0; 5; 7; 40000]]%Z) 1 = Ok min_dn /\
    Np.percentile (nonzero_values [[0; 5; 7; 40000]]%Z) 99 = Ok max_dn /\
    simple_lst_calculation [[0; 5; 7; 40000]]%Z = Ok out /\
    (m < 35000 -> temp_min = 10 /\ temp_max = 45) /\
    (35000 <= m -> temp_min = 15 /\ temp_max = 50).
Proof.
  assert (Hne : nonzero_values [[0; 5; 7; 40000]]%Z <> []) by discriminate.
  split; [exact Hne|].
  destruct (lst_regime_remap [[0; 5; 7; 40000]]%Z Hne)
    as (m & a & b & tmin & tmax & out & H1 & H2 & H3 & H4 & H5 & H6 & _).
  exists m, a, b, tmin, tmax, out. auto 10.
Defined.

Lemma of_nat_succ (n : nat) : Np.of_nat (S n) == Np.of_nat n + 1.
Proof.
  unfold Np.of_nat. rewrite Nat2Z.inj_succ. unfold Z.succ.
  now rewrite inject_Z_plus.
Qed.

Lemma sum_constant (v : Q) (l : list Q) :
  Forall (eq v) l -> Np.sum l == Np.of_nat (length l) * v.
Proof.
  induction 1 as [|x l Hx _ IH]; cbn [Np.sum fold_right length].
  - unfold Np.of_nat. cbn. ring.
  - fold (Np.sum l). rewrite IH, of_nat_succ, <- Hx. ring.
Qed.

Lemma mean_constant (v : Q) (a : list Q) :
  a <> [] -> Forall (eq v) a -> exists m, Np.mean a = Some m /\ m == v.
Proof.
  intros Hne Hall. rewrite (mean_nonempty _ Hne).
  eexists. split; [reflexivity|].
  rewrite (sum_constant v) by exact Hall.
  assert (0 < Np.of_nat (length a)).
  { destruct a as [|x l]; [congruence|].
    cbn [length]. rewrite of_nat_succ. pose proof (of_nat_nonneg (length l)).
    lra. }
  field. lra.
Qed.

(** A thermal band whose non-zero pixels all hold one value is filled with
    the midpoint of its regime. *)
Lemma lst_single_value_midpoint (thermal_dn : grid Z) (d : Z) :
  nonzero_values thermal_dn <> [] ->
  Forall (eq (inject_Z d)) (nonzero_values thermal_dn) ->
  exists out,
    simple_lst_calculation thermal_dn = Ok out /\
    forall i j z, pixel thermal_dn i j = Some z ->
      exists v,
        pixel out i j = Some (Some v) /\
        (inject_Z d < 35000 -> v == 27.5) /\
        (35000 <= inject_Z d -> v == 32.5).
Proof.
  intros Hne Hall.
  destruct (simple_lst_calculation_nonempty _ Hne)
    as (min_dn & max_dn & Hmin & Hmax & Hout).
  destruct (percentile_constant (inject_Z d) 1 _ Hne Hall) as (p1 & Hp1 & E1);
    [lra|].
  destruct (percentile_constant (inject_Z d) 99 _ Hne Hall) as (p99 & Hp99 & E99);
    [lra|].
  assert (p1 = min_dn) by congruence. assert (p99 = max_dn) by congruence.
  subst p1 p99.
  destruct (mean_constant _ _ Hne Hall) as (m & Hm & Em).
  eexists. split; [exact Hout|].
  intros i j z Hz. eexists. split.
  - rewrite pixel_grid_map, Hz. cbn [option_map]. f_equal.
    apply lst_cell_midpoint; [lra|].
    destruct (regime_cases (nonzero_values thermal_dn)) as [E|E];
      rewrite E; cbn [fst snd];
      split; (apply Qle_shift_div_l || apply Qle_shift_div_r); lra.
  - split; intro H.
    + rewrite (regime_below _ m Hm) by lra. reflexivity.
    + rewrite (regime_at_or_above _ m Hm) by lra. reflexivity.
Qed.

(** ** Heat anomaly *)

Lemma all_invalid_valid_values (g : grid cell) :
  all_invalid g -> Np.valid_values g = [].
Proof.
  unfold all_invalid, Np.valid_values, ravel. intro H.
  apply finite_all_nan. apply Forall_concat. exact H.
Qed.

Lemma all_invalid_full_like {A : Type} (g : grid A) :
  all_invalid (Np.full_like g nan).
Proof.
  unfold all_invalid, Np.full_like, grid_map.
  apply Forall_map. apply Forall_forall. intros row _.
  apply Forall_map. apply Forall_forall. auto.
Qed.

Lemma uhi_all_invalid (lst_data : grid cell) :
  all_invalid lst_data ->
  simple_uhi_calculation lst_data = Ok (Np.full_like lst_data nan).
Proof.
  intro H. unfold simple_uhi_calculation.
  now rewrite (all_invalid_valid_values _ H).
Qed.

Lemma all_zero_clean (g : grid Z) :
  all_zero g -> all_invalid (grid_map clean_cell g).
Proof.
  unfold all_zero, all_invalid, grid_map. intro H.
  apply Forall_map. eapply Forall_impl; [|exact H].
  intros row Hrow. apply Forall_map. eapply Forall_impl; [|exact Hrow].
  intros z ->. reflexivity.
Qed.

(** C6: an all-zero thermal grid gives an all-invalid temperature grid of the
    same shape, and that grid gives an all-invalid anomaly grid of the same
    shape; neither call raises. *)
Theorem all_zero_propagates (thermal_dn : grid Z) :
  all_zero thermal_dn ->
  exists lst uhi,
    simple_lst_calculation thermal_dn = Ok lst /\
    shape lst = shape thermal_dn /\ all_invalid lst /\
    simple_uhi_calculation lst = Ok uhi /\
    shape uhi = shape lst /\ all_invalid uhi.
Proof.
  intro Hz.
  pose proof (all_zero_clean _ Hz) as Hinv.
  assert (He : nonzero_values thermal_dn = []).
  { rewrite <- valid_values_clean. now apply all_invalid_valid_values. }
  exists (grid_map clean_cell thermal_dn).
  exists (Np.full_like (grid_map clean_cell thermal_dn) nan).
  split; [now apply simple_lst_calculation_empty|].
  split; [apply shape_grid_map|].
  split; [exact Hinv|].
  split; [now apply uhi_all_invalid|].
  split; [apply shape_grid_map|apply all_invalid_full_like].
Qed.

(** C6 at a 2x3 grid of zeros. *)
Lemma all_zero_propagates_witness :
  all_zero [[0; 0; 0]; [0; 0; 0]]%Z /\
  exists lst uhi,
    simple_lst_calculation [[0; 0; 0]; [0; 0; 0]]%Z = Ok lst /\
    shape lst = [3; 3]%nat /\ all_invalid lst /\
    simple_uhi_calculation lst = Ok uhi /\
    shape uhi = shape lst /\ all_invalid uhi.
Proof.
  assert (Hz : all_zero [[0; 0; 0]; [0; 0; 0]]%Z)
    by (repeat constructor).
  split; [exact Hz|].
  exact (all_zero_propagates [[0; 0; 0]; [0; 0; 0]]%Z Hz).
Defined.

Lemma median_nonempty (a : list Q) :
  a <> [] -> exists m, Np.median a = Some m.
Proof.
  destruct a as [|x a]; [congruence|]. intros _.
  unfold Np.median. destruct (Nat.even _); eauto.
Qed.

(** C5: with a valid pixel in the grid, the anomaly at each valid pixel is
    the pixel minus the median of the valid pixels of that grid, nothing
    else is done to it, invalid pixels stay invalid, and a pixel equal to
    the median has anomaly 0. *)
Theorem uhi_is_offset_from_median (lst_data : grid cell) :
  Np.valid_values lst_data <> [] ->
  exists m uhi,
    Np.median (Np.valid_values lst_data) = Some m /\
    simple_uhi_calculation lst_data = Ok uhi /\
    shape uhi = shape lst_data /\
    (forall i j x, pixel lst_data i j = Some (Some x) ->
       pixel uhi i j = Some (Some (x - m)) /\ (x == m -> x - m == 0)) /\
    (forall i j, pixel lst_data i j = Some nan -> pixel uhi i j = Some nan).
Proof.
  intro Hne.
  destruct (median_nonempty _ Hne) as [m Hm].
  exists m. eexists. split; [exact Hm|].
  unfold simple_uhi_calculation.
  destruct (Np.valid_values lst_data) as [|x0 l] eqn:E; [congruence|].
  cbn [length Nat.eqb]. rewrite Hm. split; [reflexivity|].
  split; [apply shape_grid_map|]. split.
  - intros i j x Hx. rewrite pixel_grid_map, Hx. split; [reflexivity|].
    intro Heq. rewrite Heq. ring.
  - intros i j Hx. rewrite pixel_grid_map, Hx. reflexivity.
Qed.

(** C5 at the grid [[20, nan], [30, 25]], whose median is 25. *)
Lemma uhi_is_offset_from_median_witness :
  Np.valid_values [[Some 20; nan]; [Some 30; Some 25]] <> [] /\
  exists m uhi,
    Np.median (Np.valid_values [[Some 20; nan]; [Some 30; Some 25]]) = Some m /\
    m = 25 /\
    simple_uhi_calculation [[Some 20; nan]; [Some 30; Some 25]] = Ok uhi /\
    pixel uhi 1 1 = Some (Some (25 - m)) /\ 25 - m == 0.
Proof.
  assert (Hne : Np.valid_values [[Some 20; nan]; [Some 30; Some 25]] <> [])
    by discriminate.
  split; [exact Hne|].
  destruct (uhi_is_offset_from_median _ Hne)
    as (m & uhi & Hm & Hu & _ & Hpix & _).
  exists m, uhi. split; [exact Hm|].
  assert (E : m = 25) by (vm_compute in Hm; congruence).
  split; [exact E|]. split; [exact Hu|].
  destruct (Hpix 1%nat 1%nat 25 eq_refl) as [Hp H0].
  split; [exact Hp|]. apply H0. rewrite E. reflexivity.
Defined.

(** ** Vegetation index *)

Lemma nth_error_zip_with {A B C : Type} (f : A -> B -> C)
  (l : list A) (m : list B) (n : nat) :
  nth_error (zip_with f l m) n =
    match nth_error l n, nth_error m n with
    | Some a, Some b => Some (f a b)
    | _, _ => None
    end.
Proof.
  revert m n.
  induction l as [|a l IH]; intros [|b m] [|n]; simpl; auto;
    now destruct (nth_error l n).
Qed.

Lemma pixel_grid_map2 {A B C : Type} (f : A -> B -> C)
  (g : grid A) (h : grid B) (i j : nat) :
  pixel (grid_map2 f g h) i j =
    match pixel g i j, pixel h i j with
    | Some a, Some b => Some (f a b)
    | _, _ => None
    end.
Proof.
  unfold pixel, grid_map2. rewrite nth_error_zip_with.
  destruct (nth_error g i) as [row|], (nth_error h i) as [row'|]; auto.
  - apply nth_error_zip_with.
  - now destruct (nth_error row j).
Qed.

Lemma ndvi_cell_valid (r n : Z) :
  r <> 0%Z -> n <> 0%Z -> 0 < inject_Z n + inject_Z r ->
  ndvi_cell r n =
    Some (qmin (qmax ((inject_Z n - inject_Z r) / (inject_Z n + inject_Z r))
                  (-1)) 1).
Proof.
  intros Hr Hn Hd. unfold ndvi_cell. fold (clean_cell r) (clean_cell n).
  rewrite !clean_cell_eq.
  apply Z.eqb_neq in Hr. apply Z.eqb_neq in Hn. rewrite Hr, Hn.
  cbn [fadd lift2]. unfold fgt. rewrite flt_some.
  apply Qltb_lt in Hd as Hb. rewrite Hb.
  cbn [Np.where_ fsub fdiv lift2].
  destruct (Qeq_bool (inject_Z n + inject_Z r) 0) eqn:E.
  { apply Qeq_bool_iff in E. lra. }
  reflexivity.
Qed.

Lemma ndvi_cell_invalid (r n : Z) :
  r = 0%Z \/ n = 0%Z \/ inject_Z n + inject_Z r <= 0 ->
  ndvi_cell r n = nan.
Proof.
  intro H. unfold ndvi_cell. fold (clean_cell r) (clean_cell n).
  rewrite !clean_cell_eq.
  destruct (r =? 0)%Z eqn:Er.
  { now destruct (n =? 0)%Z. }
  destruct (n =? 0)%Z eqn:En; [reflexivity|].
  apply Z.eqb_neq in Er. apply Z.eqb_neq in En.
  destruct H as [H|[H|H]]; try contradiction.
  cbn [fadd lift2]. unfold fgt. rewrite flt_some.
  apply Qltb_ge in H. rewrite H. reflexivity.
Qed.

Lemma ndvi_cell_bounds (r n : Z) (v : Q) :
  ndvi_cell r n = Some v -> -1 <= v <= 1.
Proof.
  unfold ndvi_cell. intro H. apply clip_bounds in H; lra.
Qed.

(** C4: the vegetation index is (nir - red) / (nir + red) clamped to [-1, 1]
    where both bands are non-zero and nir + red > 0, and invalid elsewhere;
    every valid value lies in [-1, 1]; and red = [10, 20; 30, 40],
    nir = [40, 30; 20, 10] give [0.6, 0.2; -0.2, -0.6]. *)
Theorem ndvi_pixelwise (red_dn nir_dn : grid Z) :
  exists ndvi,
    simple_ndvi_calculation red_dn nir_dn = Ok ndvi /\
    (forall i j r n,
       pixel red_dn i j = Some r -> pixel nir_dn i j = Some n ->
       (r <> 0%Z -> n <> 0%Z -> 0 < inject_Z n + inject_Z r ->
        pixel ndvi i j =
          Some (Some (qmin (qmax ((inject_Z n - inject_Z r)
                                  / (inject_Z n + inject_Z r)) (-1)) 1))) /\
       (r = 0%Z \/ n = 0%Z \/ inject_Z n + inject_Z r <= 0 ->
        pixel ndvi i j = Some nan)) /\
    (forall i j v, pixel ndvi i j = Some (Some v) -> -1 <= v <= 1) /\
    exists example,
      simple_ndvi_calculation [[10; 20]; [30; 40]]%Z [[40; 30]; [20; 10]]%Z
        = Ok example /\
      grid_eq example [[Some 0.6; Some 0.2]; [Some (-0.2); Some (-0.6)]].
Proof.
  eexists. split; [reflexivity|]. split; [|split].
  - intros i j r n Hr Hn. rewrite pixel_grid_map2, Hr, Hn. split.
    + intros. f_equal. now apply ndvi_cell_valid.
    + intros. f_equal. now apply ndvi_cell_invalid.
  - intros i j v H. rewrite pixel_grid_map2 in H.
    destruct (pixel red_dn i j) as [r|]; [|discriminate].
    destruct (pixel nir_dn i j) as [n|]; [|discriminate].
    injection H as H. eapply ndvi_cell_bounds; eauto.
  - eexists. split; [reflexivity|].
    repeat constructor.
Qed.

(** C4 at red = [[10, 0], [30, -5]], nir = [[40, 30], [20, 5]]: a valid
    pixel, a zero in the red band, and a denominator of 0. *)
Lemma ndvi_pixelwise_witness :
  exists ndvi v,
    simple_ndvi_calculation [[10; 0]; [30; -5]]%Z [[40; 30]; [20; 5]]%Z
      = Ok ndvi /\
    pixel ndvi 0 0 = Some (Some v) /\ v == 0.6 /\ -1 <= v <= 1 /\
    pixel ndvi 0 1 = Some nan /\
    pixel ndvi 1 1 = Some nan.
Proof.
  destruct (ndvi_pixelwise [[10; 0]; [30; -5]]%Z [[40; 30]; [20; 5]]%Z)
    as (ndvi & Hout & Hpix & Hb & _).
  exists ndvi. eexists. split; [exact Hout|].
  destruct (Hpix 0%nat 0%nat 10%Z 40%Z eq_refl eq_refl) as [Hv _].
  assert (H1 : (10 <> 0)%Z) by discriminate.
  assert (H2 : (40 <> 0)%Z) by discriminate.
  assert (H3 : 0 < inject_Z 40 + inject_Z 10) by reflexivity.
  pose proof (Hv H1 H2 H3) as Hp.
  split; [exact Hp|]. split; [reflexivity|].
  split; [exact (Hb _ _ _ Hp)|]. split.
  - apply (Hpix 0%nat 1%nat 0%Z 30%Z eq_refl eq_refl). now left.
  - apply (Hpix 1%nat 1%nat (-5)%Z 5%Z eq_refl eq_refl).
    right. right. discriminate.
Defined.

(** In binary64 the four quotients of the example are the floats the
    literals 0.6, 0.2, -0.2 and -0.6 denote. *)
#[warning="-inexact-float"]
Lemma ndvi_example_binary64 :
  grid_map2 Binary64.ndvi_cell
    [[10; 20]; [30; 40]]%Z [[40; 30]; [20; 10]]%Z
  = [[0.6; 0.2]; [-0.2; -0.6]]%float.
Proof. vm_compute. reflexivity. Qed.

(** ** Statistics *)

Lemma fold_left_qmin (l : list Q) (x : Q) :
  In (fold_left qmin l x) (x :: l) /\
  forall y, In y (x :: l) -> fold_left qmin l x <= y.
Proof.
  revert x. induction l as [|z l IH]; intro x; cbn [fold_left].
  - split; [now left|]. intros y [<-|[]]. lra.
  - destruct (IH (qmin x z)) as [Hin Hle]. split.
    + destruct Hin as [Hin|Hin]; [|now right; right].
      rewrite <- Hin.
      destruct (qmin_cases x z) as [[_ ->]|[_ ->]]; simpl; auto.
    + intros y Hy.
      assert (Hq : fold_left qmin l (qmin x z) <= qmin x z)
        by (apply Hle; now left).
      destruct Hy as [<-|[<-|Hy]].
      * destruct (qmin_cases x z) as [[? E]|[? E]]; rewrite E in Hq |- *; lra.
      * destruct (qmin_cases x z) as [[? E]|[? E]]; rewrite E in Hq |- *; lra.
      * apply Hle. now right.
Qed.

Lemma fold_left_qmax (l : list Q) (x : Q) :
  In (fold_left qmax l x) (x :: l) /\
  forall y, In y (x :: l) -> y <= fold_left qmax l x.
Proof.
  revert x. induction l as [|z l IH]; intro x; cbn [fold_left].
  - split; [now left|]. intros y [<-|[]]. lra.
  - destruct (IH (qmax x z)) as [Hin Hle]. split.
    + destruct Hin as [Hin|Hin]; [|now right; right].
      rewrite <- Hin.
      destruct (qmax_cases x z) as [[_ ->]|[_ ->]]; simpl; auto.
    + intros y Hy.
      assert (Hq : qmax x z <= fold_left qmax l (qmax x z))
        by (apply Hle; now left).
      destruct Hy as [<-|[<-|Hy]].
      * destruct (qmax_cases x z) as [[? E]|[? E]]; rewrite E in Hq |- *; lra.
      * destruct (qmax_cases x z) as [[? E]|[? E]]; rewrite E in Hq |- *; lra.
      * apply Hle. now right.
Qed.

Lemma min_spec (a : list Q) :
  a <> [] ->
  exists lo, Np.min a = Ok lo /\ In lo a /\ forall y, In y a -> lo <= y.
Proof.
  destruct a as [|x l]; [congruence|]. intros _.
  exists (fold_left qmin l x). split; [reflexivity|]. apply fold_left_qmin.
Qed.

Lemma max_spec (a : list Q) :
  a <> [] ->
  exists hi, Np.max a = Ok hi /\ In hi a /\ forall y, In y a -> y <= hi.
Proof.
  destruct a as [|x l]; [congruence|]. intros _.
  exists (fold_left qmax l x). split; [reflexivity|]. apply fold_left_qmax.
Qed.

(** The square root is the root rounded down. *)
Lemma sqrt_square_le (q : Q) : 0 <= q -> Np.sqrt q * Np.sqrt q <= q.
Proof.
  destruct q as [n d]. unfold Np.sqrt, Qle, Qmult. cbn [Qnum Qden].
  intro H. rewrite Z.mul_1_r in H. cbn in H.
  rewrite !Pos2Z.inj_mul.
  change (Z.pos (2 ^ 52)) with (2 ^ 52)%Z.
  assert (Hs : (0 <= n * Z.pos d * 2 ^ 104)%Z)
    by (apply Z.mul_nonneg_nonneg; [|lia]; apply Z.mul_nonneg_nonneg; lia).
  pose proof (Z.sqrt_spec _ Hs) as [Hlo _].
  set (s := Z.sqrt (n * Z.pos d * 2 ^ 104)) in *.
  replace (n * (Z.pos d * 2 ^ 52 * (Z.pos d * 2 ^ 52)))%Z
    with ((n * Z.pos d * 2 ^ 104) * Z.pos d)%Z
    by (change (2 ^ 104)%Z with (2 ^ 52 * 2 ^ 52)%Z; ring).
  apply Z.mul_le_mono_nonneg_r; lia.
Qed.

Lemma sqrt_of_square (x : Q) : 0 <= x -> Np.sqrt (x * x) == x.
Proof.
  destruct x as [n d]. unfold Np.sqrt, Qle, Qeq, Qmult. cbn [Qnum Qden].
  intro H. rewrite Z.mul_1_r in H. cbn in H.
  rewrite !Pos2Z.inj_mul.
  change (Z.pos (2 ^ 52)) with (2 ^ 52)%Z.
  replace (n * n * (Z.pos d * Z.pos d) * 2 ^ 104)%Z
    with ((n * Z.pos d * 2 ^ 52) * (n * Z.pos d * 2 ^ 52))%Z
    by (change (2 ^ 104)%Z with (2 ^ 52 * 2 ^ 52)%Z; ring).
  rewrite Z.sqrt_square by lia. ring.
Qed.

Lemma sum_squares_nonneg (c : Q) (a : list Q) :
  0 <= Np.sum (map (fun x => (x - c) * (x - c)) a).
Proof.
  unfold Np.sum.
  induction a as [|x a IH]; cbn [map fold_right]; [lra|].
  assert (0 <= (x - c) * (x - c))
    by (destruct (Qlt_le_dec (x - c) 0); nra).
  lra.
Qed.

Lemma var_nonneg (a : list Q) : 0 <= Np.var a.
Proof.
  unfold Np.var.
  pose proof (sum_squares_nonneg (Np.sum a / Np.of_nat (length a)) a) as Hs.
  pose proof (of_nat_nonneg (length a)) as Hn.
  unfold Qdiv at 2. apply Qmult_le_0_compat; [exact Hs|].
  now apply Qinv_le_0_compat.
Qed.

(** The standard deviation squared is the population variance rounded
    down. *)
Lemma std_square_le (a : list Q) (sd : Q) :
  Np.std a = Some sd -> 0 <= sd /\ sd * sd <= Np.var a.
Proof.
  destruct a as [|x l]; [discriminate|]. cbn [Np.std]. intro H.
  injection H as <-. split.
  - unfold Np.sqrt, Qle. cbn [Qnum Qden]. rewrite Z.mul_1_r. cbn.
    apply Z.sqrt_nonneg.
  - apply sqrt_square_le, var_nonneg.
Qed.

Lemma dict_get_set_same {V : Type} (d : dict V) (k : string) (v : V) :
  dict_get (dict_set d k v) k = Some v.
Proof.
  induction d as [|[k' v'] d IH]; cbn [dict_set dict_get].
  - now rewrite String.eqb_refl.
  - destruct (String.eqb k' k) eqn:E; cbn [dict_get].
    + now rewrite String.eqb_refl.
    + now rewrite E.
Qed.

Lemma dict_get_set_other {V : Type} (d : dict V) (k k' : string) (v : V) :
  k <> k' -> dict_get (dict_set d k v) k' = dict_get d k'.
Proof.
  intro Hk. apply String.eqb_neq in Hk.
  induction d as [|[k0 v0] d IH]; cbn [dict_set dict_get].
  - now rewrite Hk.
  - destruct (String.eqb k0 k) eqn:E; cbn [dict_get].
    + apply String.eqb_eq in E. subst k0. now rewrite Hk.
    + now rewrite IH.
Qed.

Lemma index_stats_result (name : string) (data : grid cell) (stats : dict value) :
  exists c1 c2 c3 c4,
    index_stats name data stats =
      Ok (dict_set
            (dict_set
               (dict_set (dict_set stats (name ++ "_min") (VFloat c1))
                  (name ++ "_max") (VFloat c2))
               (name ++ "_mean") (VFloat c3))
            (name ++ "_std") (VFloat c4)) /\
    (Np.valid_values data <> [] ->
     exists lo hi,
       (In lo (Np.valid_values data)
        /\ forall y, In y (Np.valid_values data) -> lo <= y) /\
       (In hi (Np.valid_values data)
        /\ forall y, In y (Np.valid_values data) -> y <= hi) /\
       c1 = Some lo /\ c2 = Some hi /\
       c3 = Some (Np.sum (Np.valid_values data)
                  / Np.of_nat (length (Np.valid_values data))) /\
       c4 = Some (Np.sqrt (Np.var (Np.valid_values data)))) /\
    (Np.valid_values data = [] ->
     c1 = nan /\ c2 = nan /\ c3 = nan /\ c4 = nan).
Proof.
  unfold index_stats.
  destruct (Np.valid_values data) as [|x l] eqn:E.
  - exists nan, nan, nan, nan. split; [reflexivity|].
    split; [congruence|auto].
  - assert (Hne : x :: l <> []) by discriminate.
    destruct (min_spec _ Hne) as (lo & Hlo & Hlo1 & Hlo2).
    destruct (max_spec _ Hne) as (hi & Hhi & Hhi1 & Hhi2).
    exists (Some lo), (Some hi), (Np.mean (x :: l)), (Np.std (x :: l)).
    split.
    + cbn [length Nat.ltb Nat.leb]. rewrite Hlo, Hhi. reflexivity.
    + split; [|congruence]. intros _. exists lo, hi. auto 10.
Qed.

(** Looking a key up through the assignments made after its own. *)
Ltac dict_lookup :=
  cbn [append];
  repeat (rewrite dict_get_set_other by discriminate);
  apply dict_get_set_same.

(** One grid's part of the table, from the two cases of its block. *)
Ltac summarised P N :=
  let H := fresh "H" in
  let lo := fresh "lo" in
  let hi := fresh "hi" in
  let Hlo := fresh "Hlo" in
  let Hhi := fresh "Hhi" in
  let k := fresh "k" in
  let Hk := fresh "Hk" in
  split;
  [ intro H; destruct (P H) as (lo & hi & Hlo & Hhi & -> & -> & -> & ->);
    exists lo, hi; repeat split; try apply Hlo; try apply Hhi; dict_lookup
  | intros H k Hk; destruct (N H) as (-> & -> & -> & ->);
    cbn [In] in Hk; destruct Hk as [<-|[<-|[<-|[<-|[]]]]]; dict_lookup ].

(** C7: for each of the three grids the table holds the minimum, the
    maximum, the mean and the population standard deviation of the valid
    pixels, or four nan markers when the grid has no valid pixel. *)
Theorem stats_summarise_each_grid (lst ndvi uhi : grid cell) :
  exists stats,
    calculate_simple_stats lst ndvi uhi = Ok stats /\
    summarises stats "LST" lst /\
    summarises stats "NDVI" ndvi /\
    summarises stats "UHI" uhi.
Proof.
  unfold calculate_simple_stats.
  destruct (index_stats_result "LST" lst [])
    as (a1 & a2 & a3 & a4 & Ea & Pa & Na).
  rewrite Ea. cbn [bind].
  match goal with |- context [index_stats "NDVI" ndvi ?d] =>
    destruct (index_stats_result "NDVI" ndvi d)
      as (b1 & b2 & b3 & b4 & Eb & Pb & Nb) end.
  rewrite Eb. cbn [bind].
  match goal with |- context [index_stats "UHI" uhi ?d] =>
    destruct (index_stats_result "UHI" uhi d)
      as (c1 & c2 & c3 & c4 & Ec & Pc & Nc) end.
  rewrite Ec. cbn [bind].
  eexists. split; [reflexivity|].
  cbn [append].
  split; [|split]; unfold summarises; cbv zeta.
  - summarised Pa Na.
  - summarised Pb Nb.
  - summarised Pc Nc.
Qed.

(** C7 at a temperature grid with two valid pixels, a vegetation grid with
    none and an anomaly grid with one. *)
Lemma stats_summarise_each_grid_witness :
  exists stats,
    calculate_simple_stats [[Some 20; nan; Some 30]] [[nan]] [[Some 5]]
      = Ok stats /\
    summarises stats "LST" [[Some 20; nan; Some 30]] /\
    summarises stats "NDVI" [[nan]] /\
    summarises stats "UHI" [[Some 5]] /\
    dict_get stats "LST_min" = Some (VFloat (Some 20)) /\
    dict_get stats "LST_max" = Some (VFloat (Some 30)) /\
    dict_get stats "NDVI_std" = Some (VFloat nan).
Proof.
  destruct (stats_summarise_each_grid
              [[Some 20; nan; Some 30]] [[nan]] [[Some 5]])
    as (stats & Hs & H1 & H2 & H3).
  exists stats. repeat (split; [assumption|]).
  vm_compute in Hs. injection Hs as <-. repeat split.
Defined.

(** ** Colour range of the renderer *)

Lemma create_simple_plot_temperature (data : grid cell) (title : string) :
  str_in "LST" title || str_in "Temperature" title = true ->
  (Np.valid_values data <> [] ->
   exists p2 p98,
     Np.percentile (Np.valid_values data) 2 = Ok p2 /\
     Np.percentile (Np.valid_values data) 98 = Ok p98 /\
     create_simple_plot data title = Ok (Some (qmax 15 p2), Some (qmin 60 p98))) /\
  (Np.valid_values data = [] ->
   create_simple_plot data title = Ok (Some 15, Some 50)).
Proof.
  intro Ht. unfold create_simple_plot. rewrite Ht.
  destruct (Np.valid_values data) as [|x l]; split; try congruence.
  - intros _. reflexivity.
  - intros _. do 2 eexists. repeat split.
Qed.

Lemma create_simple_plot_anomaly (data : grid cell) (title : string) :
  str_in "LST" title || str_in "Temperature" title = false ->
  str_in "UHI" title = true ->
  (Np.valid_values data <> [] ->
   exists p2 p98,
     Np.percentile (Np.valid_values data) 2 = Ok p2 /\
     Np.percentile (Np.valid_values data) 98 = Ok p98 /\
     create_simple_plot data title =
       Ok (Some (- qmin (qmax (Qabs p2) (Qabs p98)) 12),
           Some (qmin (qmax (Qabs p2) (Qabs p98)) 12))) /\
  (Np.valid_values data = [] ->
   create_simple_plot data title = Ok (Some (-8), Some 8)).
Proof.
  intros Ht Hu. unfold create_simple_plot. rewrite Ht, Hu.
  destruct (Np.valid_values data) as [|x l]; split; try congruence.
  - intros _. reflexivity.
  - intros _. do 2 eexists. repeat split.
Qed.

Lemma create_simple_plot_other (data : grid cell) (title : string) :
  str_in "LST" title || str_in "Temperature" title = false ->
  str_in "UHI" title = false ->
  (Np.valid_values data <> [] ->
   exists p5 p95,
     Np.percentile (Np.valid_values data) 5 = Ok p5 /\
     Np.percentile (Np.valid_values data) 95 = Ok p95 /\
     create_simple_plot data title = Ok (Some p5, Some p95)) /\
  (Np.valid_values data = [] ->
   create_simple_plot data title = Ok (None, None)).
Proof.
  intros Ht Hu. unfold create_simple_plot. rewrite Ht, Hu.
  destruct (Np.valid_values data) as [|x l]; split; try congruence.
  - intros _. reflexivity.
  - intros _. do 2 eexists. repeat split.
Qed.

(** The title of the temperature plot always holds a keyword of the
    renderer's temperature branch. *)
Lemma temperature_title_keywords (period : string) :
  str_in "LST" (plot_title period "LST")
  || str_in "Temperature" (plot_title period "LST") = true.
Proof.
  apply orb_true_iff. right. destruct period as [|c period]; reflexivity.
Qed.

(** The title of the anomaly plot holds the keyword of the renderer's
    anomaly branch only when the period label does. *)
Lemma anomaly_title_keywords (period : string) :
  str_in "UHI" (plot_title period "UHI") = str_in "UHI" period /\
  str_in "LST" (plot_title period "UHI") = str_in "LST" period /\
  str_in "Temperature" (plot_title period "UHI") = str_in "Temperature" period.
Proof.
  repeat split; destruct period as [|c period]; reflexivity.
Qed.

Lemma anomaly_plot_percentile_range (data : grid cell) (period : string) :
  str_in "LST" period = false -> str_in "Temperature" period = false ->
  str_in "UHI" period = false ->
  save_outputs data period "UHI" = create_simple_plot data "NDVI".
Proof.
  intros H1 H2 H3. unfold save_outputs.
  destruct (anomaly_title_keywords period) as (E1 & E2 & E3).
  unfold create_simple_plot. rewrite E1, E2, E3, H1, H2, H3. reflexivity.
Qed.

(** C8, at the anomaly grid [[-3, 1, 5]] of period 2020_Winter: the plot
    [save_outputs] requests has the range [-2.6, 4.6], the 5th and 95th
    percentiles, where the anomaly rule gives [-4.84, 4.84]. *)
Theorem anomaly_plot_range_not_symmetric :
  exists vmin vmax,
    save_outputs [[Some (-3); Some 1; Some 5]] "2020_Winter" "UHI"
      = Ok (Some vmin, Some vmax) /\
    vmin == -2.6 /\ vmax == 4.6 /\
    exists lo hi,
      create_simple_plot [[Some (-3); Some 1; Some 5]] "UHI"
        = Ok (Some lo, Some hi) /\
      lo == -4.84 /\ hi == 4.84.
Proof.
  do 2 eexists. split; [vm_compute; reflexivity|].
  split; [reflexivity|]. split; [reflexivity|].
  do 2 eexists. split; [vm_compute; reflexivity|].
  split; reflexivity.
Qed.

(** ** Batch driver *)


Section BatchDriver.

Variable self : SimpleLandsatAnalysis.
Variable w : World.


End BatchDriver.


(** * Further properties *)

(** ** Bounds of the order statistics *)

Lemma in_sort (x : Q) (l : list Q) : In x (Np.sort l) <-> In x l.
Proof.
  split; intro H.
  - eapply Permutation_in; [symmetry; apply sort_perm|exact H].
  - eapply Permutation_in; [apply sort_perm|exact H].
Qed.

Lemma nth_sort_in (k : nat) (l : list Q) :
  (k < length l)%nat -> In (nth k (Np.sort l) 0) l.
Proof.
  intro H. apply in_sort. apply nth_In. now rewrite sort_length.
Qed.

Lemma of_nat_floor (x : Q) :
  0 <= x -> Np.of_nat (Z.to_nat (Qfloor x)) = inject_Z (Qfloor x).
Proof.
  intro H. unfold Np.of_nat. rewrite Z2Nat.id; [reflexivity|].
  apply Qfloor_resp_le in H. exact H.
Qed.

Lemma virtual_index_bounds (q : Q) (n : nat) :
  0 <= q <= 100 -> (0 < n)%nat ->
  let virt := q / 100 * Np.of_nat (n - 1) in
  0 <= virt /\ (Z.to_nat (Qfloor virt) <= n - 1)%nat /\
  0 <= virt - Np.of_nat (Z.to_nat (Qfloor virt)) <= 1.
Proof.
  intros Hq Hn virt.
  pose proof (of_nat_nonneg (n - 1)) as H0.
  assert (Hd : q / 100 <= 1) by (apply Qle_shift_div_r; lra).
  assert (Hd0 : 0 <= q / 100) by (apply Qle_shift_div_l; lra).
  assert (Hv0 : 0 <= virt) by (unfold virt; nra).
  assert (Hv : virt <= Np.of_nat (n - 1)) by (unfold virt; nra).
  split; [exact Hv0|]. split.
  - apply Qfloor_resp_le in Hv. unfold Np.of_nat in Hv.
    rewrite Qfloor_Z in Hv. lia.
  - rewrite of_nat_floor by exact Hv0.
    pose proof (Qfloor_le virt). pose proof (Qlt_floor virt) as Hlt.
    rewrite inject_Z_plus in Hlt. change (inject_Z 1) with 1 in Hlt. lra.
Qed.

Lemma percentile_unfold (a : list Q) (q : Q) :
  a <> [] ->
  Np.percentile a q =
    Ok (nth (Z.to_nat (Qfloor (q / 100 * Np.of_nat (length a - 1))))
          (Np.sort a) 0
        + (nth (Nat.min
                  (Z.to_nat (Qfloor (q / 100 * Np.of_nat (length a - 1))) + 1)
                  (length a - 1)) (Np.sort a) 0
           - nth (Z.to_nat (Qfloor (q / 100 * Np.of_nat (length a - 1))))
               (Np.sort a) 0)
          * (q / 100 * Np.of_nat (length a - 1)
             - Np.of_nat
                 (Z.to_nat (Qfloor (q / 100 * Np.of_nat (length a - 1)))))).
Proof. destruct a; [congruence|reflexivity]. Qed.

(** A percentile lies between any two bounds of the data. *)
Lemma percentile_between (a : list Q) (q lower upper p : Q) :
  0 <= q <= 100 ->
  (forall x, In x a -> lower <= x <= upper) ->
  Np.percentile a q = Ok p -> lower <= p <= upper.
Proof.
  intros Hq Hall Hp.
  assert (Hne : a <> []) by (intros ->; discriminate).
  rewrite (percentile_unfold _ _ Hne) in Hp.
  set (n := length a) in *.
  assert (Hn : (0 < n)%nat)
    by (unfold n; destruct a; [congruence|cbn [length]; lia]).
  destruct (virtual_index_bounds q n Hq Hn) as (_ & Hk & Hg).
  set (virt := q / 100 * Np.of_nat (n - 1)) in *.
  set (k := Z.to_nat (Qfloor virt)) in *.
  assert (Hlo : In (nth k (Np.sort a) 0) a) by (apply nth_sort_in; fold n; lia).
  assert (Hhi : In (nth (Nat.min (k + 1) (n - 1)) (Np.sort a) 0) a)
    by (apply nth_sort_in; fold n; lia).
  apply Hall in Hlo. apply Hall in Hhi.
  set (lo := nth k (Np.sort a) 0) in *.
  set (hi := nth (Nat.min (k + 1) (n - 1)) (Np.sort a) 0) in *.
  set (g := virt - Np.of_nat k) in *.
  assert (E : p = lo + (hi - lo) * g) by congruence.
  rewrite E. nra.
Qed.

(** So does the median. *)
Lemma median_between (a : list Q) (lower upper m : Q) :
  (forall x, In x a -> lower <= x <= upper) ->
  Np.median a = Some m -> lower <= m <= upper.
Proof.
  intros Hall Hm.
  assert (Hne : a <> []) by (intros ->; discriminate).
  assert (E : Np.median a =
              if Nat.even (length a)
              then Some ((nth (length a / 2 - 1) (Np.sort a) 0
                          + nth (length a / 2) (Np.sort a) 0) / 2)
              else Some (nth (length a / 2) (Np.sort a) 0))
    by (destruct a; [congruence|reflexivity]).
  rewrite E in Hm. clear E.
  set (n := length a) in *.
  assert (Hn : (0 < n)%nat)
    by (unfold n; destruct a; [congruence|cbn [length]; lia]).
  assert (H2 : (n / 2 < n)%nat) by (apply Nat.div_lt; lia).
  assert (Hmid : In (nth (n / 2) (Np.sort a) 0) a)
    by (apply nth_sort_in; fold n; lia).
  assert (Hmid' : In (nth (n / 2 - 1) (Np.sort a) 0) a)
    by (apply nth_sort_in; fold n; lia).
  apply Hall in Hmid. apply Hall in Hmid'.
  destruct (Nat.even n).
  - assert (Em : m = (nth (n / 2 - 1) (Np.sort a) 0
                      + nth (n / 2) (Np.sort a) 0) / 2) by congruence.
    rewrite Em.
    split; [apply Qle_shift_div_l|apply Qle_shift_div_r]; lra.
  - assert (Em : m = nth (n / 2) (Np.sort a) 0) by congruence.
    rewrite Em. exact Hmid.
Qed.

(** ** Vegetation index: symmetries *)

Lemma clamp_id (x lo hi : Q) : lo <= x <= hi -> qmin (qmax x lo) hi = x.
Proof.
  intros [H1 H2]. unfold qmax, qmin.
  apply Qltb_ge in H1. rewrite H1. apply Qltb_ge in H2. now rewrite H2.
Qed.

(** Case analysis on every [qmax] and [qmin] of the goal. *)
Ltac clamp_cases :=
  repeat match goal with
         | |- context [qmax ?a ?b] =>
             let H := fresh "H" in
             let E := fresh "E" in
             destruct (qmax_cases a b) as [[H E]|[H E]]; rewrite !E; clear E
         | |- context [qmin ?a ?b] =>
             let H := fresh "H" in
             let E := fresh "E" in
             destruct (qmin_cases a b) as [[H E]|[H E]]; rewrite !E; clear E
         end.

Lemma clamp_compat (x y lo hi : Q) :
  x == y -> qmin (qmax x lo) hi == qmin (qmax y lo) hi.
Proof. intro E. clamp_cases; lra. Qed.

Lemma clamp_opp (x : Q) :
  qmin (qmax (- x) (-1)) 1 == - qmin (qmax x (-1)) 1.
Proof. clamp_cases; lra. Qed.

Lemma ndvi_cell_swap (r n : Z) :
  cell_eq (ndvi_cell n r) (option_map Qopp (ndvi_cell r n)).
Proof.
  destruct (Z.eq_dec r 0) as [Hr|Hr].
  { rewrite !ndvi_cell_invalid by auto. exact I. }
  destruct (Z.eq_dec n 0) as [Hn|Hn].
  { rewrite !ndvi_cell_invalid by auto. exact I. }
  destruct (Qlt_le_dec 0 (inject_Z n + inject_Z r)) as [Hd|Hd].
  - rewrite (ndvi_cell_valid r n) by auto.
    rewrite (ndvi_cell_valid n r) by (auto; lra).
    cbn [option_map cell_eq]. rewrite <- clamp_opp.
    apply clamp_compat. field. lra.
  - rewrite (ndvi_cell_invalid r n) by auto.
    rewrite (ndvi_cell_invalid n r) by (right; right; lra). exact I.
Qed.

(** X1: exchanging the two bands negates the vegetation index, and keeps
    invalid pixels invalid. *)
Theorem ndvi_band_swap_negates (red_dn nir_dn : grid Z) :
  exists ndvi swapped,
    simple_ndvi_calculation red_dn nir_dn = Ok ndvi /\
    simple_ndvi_calculation nir_dn red_dn = Ok swapped /\
    same_pixels swapped (grid_map (option_map Qopp) ndvi).
Proof.
  do 2 eexists. split; [reflexivity|]. split; [reflexivity|].
  intros i j. rewrite pixel_grid_map, !pixel_grid_map2.
  destruct (pixel red_dn i j) as [r|], (pixel nir_dn i j) as [n|];
    cbn [option_map]; auto.
  apply ndvi_cell_swap.
Qed.

Lemma ndvi_cell_positive (r n : Z) :
  (0 < r)%Z -> (0 < n)%Z ->
  ndvi_cell r n = Some ((inject_Z n - inject_Z r) / (inject_Z n + inject_Z r)).
Proof.
  intros Hr Hn.
  assert (Qr : 0 < inject_Z r) by (change 0 with (inject_Z 0); now rewrite <- Zlt_Qlt).
  assert (Qn : 0 < inject_Z n) by (change 0 with (inject_Z 0); now rewrite <- Zlt_Qlt).
  rewrite ndvi_cell_valid by (try lia; lra).
  f_equal. apply clamp_id.
  split; [apply Qle_shift_div_l|apply Qle_shift_div_r]; lra.
Qed.

(** X2: where both digital values are positive the clamp changes nothing:
    the index is (nir - red) / (nir + red), strictly between -1 and 1, and
    its sign tells which band is larger. *)
Theorem ndvi_of_positive_bands (red_dn nir_dn : grid Z) :
  exists ndvi,
    simple_ndvi_calculation red_dn nir_dn = Ok ndvi /\
    forall i j r n,
      pixel red_dn i j = Some r -> pixel nir_dn i j = Some n ->
      (0 < r)%Z -> (0 < n)%Z ->
      exists v,
        pixel ndvi i j = Some (Some v) /\
        v = (inject_Z n - inject_Z r) / (inject_Z n + inject_Z r) /\
        -1 < v < 1 /\
        ((r < n)%Z <-> 0 < v) /\ ((n < r)%Z <-> v < 0) /\ (r = n <-> v == 0).
Proof.
  eexists. split; [reflexivity|].
  intros i j r n Hpr Hpn Hr Hn.
  rewrite pixel_grid_map2, Hpr, Hpn, ndvi_cell_positive by assumption.
  eexists. split; [reflexivity|]. split; [reflexivity|].
  assert (Qr : 0 < inject_Z r) by (change 0 with (inject_Z 0); now rewrite <- Zlt_Qlt).
  assert (Qn : 0 < inject_Z n) by (change 0 with (inject_Z 0); now rewrite <- Zlt_Qlt).
  set (d := inject_Z n + inject_Z r).
  assert (Hd : 0 < d) by (unfold d; lra).
  set (v := (inject_Z n - inject_Z r) / d).
  assert (Hv : v * d == inject_Z n - inject_Z r) by (unfold v; field; lra).
  rewrite (Zlt_Qlt r n), (Zlt_Qlt n r).
  assert (Heq : r = n <-> inject_Z r == inject_Z n)
    by (symmetry; apply inject_Z_injective).
  rewrite Heq. unfold d in *.
  repeat split; try intro; try nra.
Qed.

(** X2 at red = 10, nir = 40. *)
Lemma ndvi_of_positive_bands_witness :
  exists ndvi v,
    simple_ndvi_calculation [[10]]%Z [[40]]%Z = Ok ndvi /\
    pixel ndvi 0 0 = Some (Some v) /\ -1 < v < 1 /\ 0 < v.
Proof.
  destruct (ndvi_of_positive_bands [[10]]%Z [[40]]%Z) as (ndvi & Hout & Hpix).
  assert (H1 : (0 < 10)%Z) by reflexivity.
  assert (H2 : (0 < 40)%Z) by reflexivity.
  destruct (Hpix 0%nat 0%nat 10%Z 40%Z eq_refl eq_refl H1 H2)
    as (v & Hp & _ & Hb & Hs & _).
  exists ndvi, v. split; [exact Hout|]. split; [exact Hp|].
  split; [exact Hb|]. apply Hs. reflexivity.
Defined.

Lemma ndvi_cell_scale (k r n : Z) :
  (0 < k)%Z -> cell_eq (ndvi_cell (k * r) (k * n)) (ndvi_cell r n).
Proof.
  intro Hk.
  assert (Qk : 0 < inject_Z k) by (change 0 with (inject_Z 0); now rewrite <- Zlt_Qlt).
  destruct (Z.eq_dec r 0) as [Hr|Hr].
  { subst r. rewrite Z.mul_0_r. rewrite !ndvi_cell_invalid by auto. exact I. }
  destruct (Z.eq_dec n 0) as [Hn|Hn].
  { subst n. rewrite Z.mul_0_r. rewrite !ndvi_cell_invalid by auto. exact I. }
  assert (Es : inject_Z (k * n) + inject_Z (k * r)
               == inject_Z k * (inject_Z n + inject_Z r))
    by (rewrite !inject_Z_mult; ring).
  assert (Hkr : (k * r <> 0)%Z) by nia.
  assert (Hkn : (k * n <> 0)%Z) by nia.
  destruct (Qlt_le_dec 0 (inject_Z n + inject_Z r)) as [Hd|Hd].
  - assert (Hs : 0 < inject_Z (k * n) + inject_Z (k * r))
      by (rewrite Es; nra).
    rewrite (ndvi_cell_valid r n) by auto.
    rewrite (ndvi_cell_valid (k * r) (k * n)) by auto.
    cbn [cell_eq]. apply clamp_compat.
    rewrite !inject_Z_mult. field. lra.
  - assert (Hs : inject_Z (k * n) + inject_Z (k * r) <= 0)
      by (rewrite Es; nra).
    rewrite (ndvi_cell_invalid r n) by auto.
    rewrite (ndvi_cell_invalid (k * r) (k * n)) by auto.
    exact I.
Qed.

(** X3: multiplying both bands by one positive factor leaves the vegetation
    index unchanged. *)
Theorem ndvi_scale_invariant (k : Z) (red_dn nir_dn : grid Z) :
  (0 < k)%Z ->
  exists ndvi scaled,
    simple_ndvi_calculation red_dn nir_dn = Ok ndvi /\
    simple_ndvi_calculation
      (grid_map (Z.mul k) red_dn) (grid_map (Z.mul k) nir_dn) = Ok scaled /\
    same_pixels scaled ndvi.
Proof.
  intro Hk. do 2 eexists. split; [reflexivity|]. split; [reflexivity|].
  intros i j. rewrite !pixel_grid_map2, !pixel_grid_map.
  destruct (pixel red_dn i j) as [r|], (pixel nir_dn i j) as [n|];
    cbn [option_map]; auto.
  now apply ndvi_cell_scale.
Qed.

(** X3 at the factor 3 on red = [[10, 0]], nir = [[40, 7]]. *)
Lemma ndvi_scale_invariant_witness :
  (0 < 3)%Z /\
  exists ndvi scaled,
    simple_ndvi_calculation [[10; 0]]%Z [[40; 7]]%Z = Ok ndvi /\
    simple_ndvi_calculation [[30; 0]]%Z [[120; 21]]%Z = Ok scaled /\
    same_pixels scaled ndvi.
Proof.
  assert (H : (0 < 3)%Z) by reflexivity.
  split; [exact H|].
  exact (ndvi_scale_invariant 3 [[10; 0]]%Z [[40; 7]]%Z H).
Defined.

(** ** Temperature estimate: order, extremes and mask *)

Lemma lst_cell_monotone
  (temp_min temp_max min_dn max_dn : Q) (z1 z2 : Z) (v1 v2 : Q) :
  temp_min <= temp_max -> (z1 <= z2)%Z ->
  lst_cell temp_min temp_max min_dn max_dn z1 = Some v1 ->
  lst_cell temp_min temp_max min_dn max_dn z2 = Some v2 ->
  v1 <= v2.
Proof.
  intros Hr Hz H1 H2. unfold lst_cell in H1, H2.
  apply plausible_cell_some in H1. apply plausible_cell_some in H2.
  destruct H1 as [H1 _], H2 as [H2 _].
  destruct (Qltb 0 (max_dn - min_dn)) eqn:E.
  - apply Qltb_lt in E. rewrite clean_cell_eq in H1, H2.
    destruct (z1 =? 0)%Z; [discriminate|].
    destruct (z2 =? 0)%Z; [discriminate|].
    cbn [fsub fdiv lift2] in H1, H2.
    destruct (Qeq_bool (max_dn - min_dn) 0); [discriminate|].
    cbn [Np.clip option_map fmul fadd lift2] in H1, H2.
    injection H1 as <-. injection H2 as <-.
    rewrite Zle_Qle in Hz.
    set (r := max_dn - min_dn) in *.
    set (t1 := (inject_Z z1 - min_dn) / r).
    set (t2 := (inject_Z z2 - min_dn) / r).
    assert (Ht1 : t1 * r == inject_Z z1 - min_dn) by (unfold t1; field; lra).
    assert (Ht2 : t2 * r == inject_Z z2 - min_dn) by (unfold t2; field; lra).
    assert (Ht : t1 <= t2) by nra.
    assert (Hc : qmin (qmax t1 0) 1 <= qmin (qmax t2 0) 1)
      by (clamp_cases; lra).
    nra.
  - injection H1 as <-. injection H2 as <-. lra.
Qed.

(** X4: within one scene the temperature estimate never decreases when the
    digital value increases. *)
Theorem lst_monotone_in_digital_value (thermal_dn : grid Z) :
  exists out,
    simple_lst_calculation thermal_dn = Ok out /\
    forall i j k l z1 z2 v1 v2,
      pixel thermal_dn i j = Some z1 -> pixel out i j = Some (Some v1) ->
      pixel thermal_dn k l = Some z2 -> pixel out k l = Some (Some v2) ->
      (z1 <= z2)%Z -> v1 <= v2.
Proof.
  destruct (nonzero_values thermal_dn) as [|x l0] eqn:E.
  - exists (grid_map clean_cell thermal_dn). split.
    + now apply simple_lst_calculation_empty.
    + intros i j k l z1 z2 v1 v2 _ H. apply pixel_valid in H.
      rewrite valid_values_clean, E in H. contradiction.
  - assert (Hne : nonzero_values thermal_dn <> []) by (rewrite E; discriminate).
    destruct (simple_lst_calculation_nonempty _ Hne)
      as (a & b & _ & _ & Hout).
    eexists. split; [exact Hout|].
    intros i j k l z1 z2 v1 v2 Hz1 Hv1 Hz2 Hv2 Hle.
    rewrite pixel_grid_map, Hz1 in Hv1. rewrite pixel_grid_map, Hz2 in Hv2.
    cbn [option_map] in Hv1, Hv2.
    injection Hv1 as Hv1. injection Hv2 as Hv2.
    eapply lst_cell_monotone; [|exact Hle|exact Hv1|exact Hv2].
    destruct (regime_cases (nonzero_values thermal_dn)) as [R|R];
      rewrite R; cbn [fst snd]; lra.
Qed.

(** X4 at the grid [[0, 5, 7, 40000]]: 5 maps below 40000. *)
Lemma lst_monotone_in_digital_value_witness :
  exists out v1 v2,
    simple_lst_calculation [[0; 5; 7; 40000]]%Z = Ok out /\
    pixel out 0 1 = Some (Some v1) /\ pixel out 0 3 = Some (Some v2) /\
    v1 <= v2.
Proof.
  destruct (lst_monotone_in_digital_value [[0; 5; 7; 40000]]%Z)
    as (out & Hout & Hmono).
  exists out, 10, 45. split; [exact Hout|].
  assert (Hp : pixel out 0 1 = Some (Some 10)
               /\ pixel out 0 3 = Some (Some 45)).
  { vm_compute in Hout. injection Hout as <-. split; reflexivity. }
  destruct Hp as [Hp1 Hp2]. split; [exact Hp1|]. split; [exact Hp2|].
  apply (Hmono 0%nat 1%nat 0%nat 3%nat 5%Z 40000%Z 10 45 eq_refl Hp1 eq_refl Hp2).
  discriminate.
Defined.

Lemma nonzero_values_in (g : grid Z) (i j : nat) (z : Z) :
  pixel g i j = Some z -> z <> 0%Z -> In (inject_Z z) (nonzero_values g).
Proof.
  intros Hp Hz. unfold nonzero_values. apply in_map. apply filter_In.
  split; [eapply pixel_in_ravel; eauto|].
  apply negb_true_iff. now apply Z.eqb_neq.
Qed.

(** X5: when the percentile span is positive, a pixel holding the least
    non-zero digital value of the scene is mapped to the lower end of the
    regime range and one holding the greatest to the upper end: the output
    spans the whole range. *)
Theorem lst_extremes_reach_range_ends (thermal_dn : grid Z) :
  nonzero_values thermal_dn <> [] ->
  exists min_dn max_dn out,
    Np.percentile (nonzero_values thermal_dn) 1 = Ok min_dn /\
    Np.percentile (nonzero_values thermal_dn) 99 = Ok max_dn /\
    simple_lst_calculation thermal_dn = Ok out /\
    (0 < max_dn - min_dn ->
     forall i j z, pixel thermal_dn i j = Some z -> z <> 0%Z ->
       ((forall x, In x (nonzero_values thermal_dn) -> inject_Z z <= x) ->
        exists v, pixel out i j = Some (Some v)
                  /\ v == fst (regime (nonzero_values thermal_dn))) /\
       ((forall x, In x (nonzero_values thermal_dn) -> x <= inject_Z z) ->
        exists v, pixel out i j = Some (Some v)
                  /\ v == snd (regime (nonzero_values thermal_dn)))).
Proof.
  intro Hne.
  destruct (simple_lst_calculation_nonempty _ Hne)
    as (a & b & Ha & Hb & Hout).
  exists a, b. eexists. split; [exact Ha|]. split; [exact Hb|].
  split; [exact Hout|].
  intros Hr i j z Hz Hnz.
  set (valid := nonzero_values thermal_dn) in *.
  assert (Hreg : -50 <= fst (regime valid)
                 /\ fst (regime valid) <= snd (regime valid)
                 /\ snd (regime valid) <= 80).
  { destruct (regime_cases valid) as [E|E]; rewrite E; cbn [fst snd]; lra. }
  destruct Hreg as (R1 & R2 & R3).
  pose proof (nonzero_values_in _ _ _ _ Hz Hnz) as Hin. fold valid in Hin.
  assert (Hd : forall y, y / (b - a) * (b - a) == y) by (intro y; field; lra).
  set (t := (inject_Z z - a) / (b - a)).
  pose proof (Hd (inject_Z z - a)) as Ht. fold t in Ht.
  destruct (min_spec _ Hne) as (lo & _ & _ & Hlo).
  destruct (max_spec _ Hne) as (hi & _ & _ & Hhi).
  fold valid in Hlo, Hhi.
  assert (H1 : 0 <= 1 <= 100) by lra.
  assert (H99 : 0 <= 99 <= 100) by lra.
  split; intro Hext; eexists;
    (split;
     [rewrite pixel_grid_map, Hz; cbn [option_map]; f_equal;
      now apply lst_cell_remap|]); fold t.
  - assert (Hza : inject_Z z <= a <= hi).
    { apply (percentile_between valid 1 (inject_Z z) hi a H1); [|exact Ha].
      intros x Hx. split; [now apply Hext|now apply Hhi]. }
    clamp_cases; nra.
  - assert (Hzb : lo <= b <= inject_Z z).
    { apply (percentile_between valid 99 lo (inject_Z z) b H99); [|exact Hb].
      intros x Hx. split; [now apply Hlo|now apply Hext]. }
    clamp_cases; nra.
Qed.

(** X5 at the grid [[0, 5, 7, 40000]]: the pixel holding 5 is mapped to 10
    and the pixel holding 40000 to 45. *)
Lemma lst_extremes_reach_range_ends_witness :
  nonzero_values [[0; 5; 7; 40000]]%Z <> [] /\
  exists out v1 v2,
    simple_lst_calculation [[0; 5; 7; 40000]]%Z = Ok out /\
    pixel out 0 1 = Some (Some v1) /\ v1 == 10 /\
    pixel out 0 3 = Some (Some v2) /\ v2 == 45.
Proof.
  assert (Hne : nonzero_values [[0; 5; 7; 40000]]%Z <> []) by discriminate.
  split; [exact Hne|].
  destruct (lst_extremes_reach_range_ends [[0; 5; 7; 40000]]%Z Hne)
    as (a & b & out & Ha & Hb & Hout & Hext).
  assert (Hr : 0 < b - a).
  { vm_compute in Ha. vm_compute in Hb.
    injection Ha as <-. injection Hb as <-. reflexivity. }
  assert (H5 : (5 <> 0)%Z) by discriminate.
  assert (H4 : (40000 <> 0)%Z) by discriminate.
  destruct (Hext Hr 0%nat 1%nat 5%Z eq_refl H5) as [Hlow _].
  destruct (Hext Hr 0%nat 3%nat 40000%Z eq_refl H4) as [_ Hhigh].
  destruct Hlow as (v1 & Hp1 & E1).
  { intros x Hx. cbn in Hx.
    destruct Hx as [<-|[<-|[<-|[]]]]; rewrite <- Zle_Qle; lia. }
  destruct Hhigh as (v2 & Hp2 & E2).
  { intros x Hx. cbn in Hx.
    destruct Hx as [<-|[<-|[<-|[]]]]; rewrite <- Zle_Qle; lia. }
  exists out, v1, v2. split; [exact Hout|].
  split; [exact Hp1|]. split; [exact E1|]. split; [exact Hp2|exact E2].
Defined.

(** X6: the temperature grid has the shape of the thermal grid, and every
    non-zero pixel has a valid temperature: the final plausibility filter
    never discards a pixel. *)
Theorem lst_keeps_shape_and_valid_pixels (thermal_dn : grid Z) :
  exists out,
    simple_lst_calculation thermal_dn = Ok out /\
    shape out = shape thermal_dn /\
    forall i j z, pixel thermal_dn i j = Some z -> z <> 0%Z ->
      exists v, pixel out i j = Some (Some v).
Proof.
  destruct (nonzero_values thermal_dn) as [|x l0] eqn:E.
  - exists (grid_map clean_cell thermal_dn).
    split; [now apply simple_lst_calculation_empty|].
    split; [apply shape_grid_map|].
    intros i j z Hz Hnz. apply (nonzero_values_in _ _ _ _ Hz) in Hnz.
    rewrite E in Hnz. contradiction.
  - assert (Hne : nonzero_values thermal_dn <> []) by (rewrite E; discriminate).
    destruct (simple_lst_calculation_nonempty _ Hne)
      as (a & b & _ & _ & Hout).
    eexists. split; [exact Hout|]. split; [apply shape_grid_map|].
    intros i j z Hz Hnz. rewrite pixel_grid_map, Hz. cbn [option_map].
    set (valid := nonzero_values thermal_dn).
    assert (Hreg : -50 <= fst (regime valid)
                   /\ fst (regime valid) <= snd (regime valid)
                   /\ snd (regime valid) <= 80).
    { destruct (regime_cases valid) as [R|R]; rewrite R; cbn [fst snd]; lra. }
    destruct Hreg as (R1 & R2 & R3).
    destruct (Qlt_le_dec 0 (b - a)) as [Hr|Hr].
    + eexists. f_equal. now apply lst_cell_remap.
    + eexists. f_equal. apply lst_cell_midpoint; [lra|].
      destruct (regime_cases valid) as [R|R]; rewrite R; cbn [fst snd];
        split; (apply Qle_shift_div_l || apply Qle_shift_div_r); lra.
Qed.

(** X6 at the grid [[0, 5, 7, 40000]]. *)
Lemma lst_keeps_shape_and_valid_pixels_witness :
  exists out v,
    simple_lst_calculation [[0; 5; 7; 40000]]%Z = Ok out /\
    shape out = [4%nat] /\ pixel out 0 2 = Some (Some v).
Proof.
  destruct (lst_keeps_shape_and_valid_pixels [[0; 5; 7; 40000]]%Z)
    as (out & Hout & Hs & Hv).
  assert (H7 : (7 <> 0)%Z) by discriminate.
  destruct (Hv 0%nat 2%nat 7%Z eq_refl H7) as (v & Hp).
  exists out, v. auto.
Defined.

(** ** Heat anomaly: bounds *)

Lemma simple_uhi_calculation_empty (lst_data : grid cell) :
  Np.valid_values lst_data = [] ->
  simple_uhi_calculation lst_data = Ok (Np.full_like lst_data nan).
Proof. intro H. unfold simple_uhi_calculation. now rewrite H. Qed.

Lemma simple_uhi_calculation_nonempty (lst_data : grid cell) :
  Np.valid_values lst_data <> [] ->
  exists m,
    Np.median (Np.valid_values lst_data) = Some m /\
    simple_uhi_calculation lst_data =
      Ok (grid_map (fun c => fsub c (Some m)) lst_data).
Proof.
  intro Hne. destruct (median_nonempty _ Hne) as [m Hm].
  exists m. split; [exact Hm|]. unfold simple_uhi_calculation.
  destruct (Np.valid_values lst_data); [congruence|].
  cbn [length Nat.eqb]. now rewrite Hm.
Qed.

Lemma finite_translate (c : Q) (l : list cell) :
  Np.finite (map (fun x => fadd x (Some c)) l)
  = map (fun y => y + c) (Np.finite l).
Proof.
  induction l as [|[x|] l IH]; cbn [map Np.finite flat_map app fadd lift2];
    [reflexivity| |]; fold (Np.finite l);
    fold (Np.finite (map (fun x => fadd x (Some c)) l)); now rewrite IH.
Qed.

Lemma ravel_grid_map {A B : Type} (f : A -> B) (g : grid A) :
  ravel (grid_map f g) = map f (ravel g).
Proof.
  unfold ravel, grid_map. now rewrite concat_map.
Qed.

Lemma valid_values_translate (c : Q) (g : grid cell) :
  Np.valid_values (grid_map (fun x => fadd x (Some c)) g)
  = map (fun y => y + c) (Np.valid_values g).
Proof.
  unfold Np.valid_values. now rewrite ravel_grid_map, finite_translate.
Qed.

Lemma uhi_as_translation (m : Q) (g : grid cell) :
  grid_map (fun c => fsub c (Some m)) g
  = grid_map (fun x => fadd x (Some (- m))) g.
Proof. apply grid_map_ext. intros [x|]; reflexivity. Qed.

Lemma in_valid_values_grid_map {A : Type} (f : A -> cell) (g : grid A) (x : Q) :
  In x (Np.valid_values (grid_map f g)) ->
  exists a, In a (ravel g) /\ f a = Some x.
Proof.
  unfold Np.valid_values. rewrite ravel_grid_map, in_finite, in_map_iff.
  intros (a & Ha & Hin). eauto.
Qed.

Lemma lst_values_in_regime (thermal_dn : grid Z) (lst : grid cell) :
  simple_lst_calculation thermal_dn = Ok lst ->
  exists tmin tmax,
    10 <= tmin /\ tmax <= 50 /\ tmax - tmin == 35 /\
    forall x, In x (Np.valid_values lst) -> tmin <= x <= tmax.
Proof.
  intro Hl.
  destruct (nonzero_values thermal_dn) as [|x l0] eqn:E.
  - rewrite (simple_lst_calculation_empty _ E) in Hl. injection Hl as <-.
    exists 10, 45. repeat split; try lra;
      rewrite valid_values_clean, E in H; contradiction.
  - assert (Hne : nonzero_values thermal_dn <> [])
      by (rewrite E; discriminate).
    destruct (simple_lst_calculation_nonempty _ Hne)
      as (a & b & _ & _ & Hout).
    rewrite Hout in Hl. injection Hl as <-.
    exists (fst (regime (nonzero_values thermal_dn))),
           (snd (regime (nonzero_values thermal_dn))).
    assert (Hw : 10 <= fst (regime (nonzero_values thermal_dn))
                 /\ snd (regime (nonzero_values thermal_dn)) <= 50
                 /\ snd (regime (nonzero_values thermal_dn))
                    - fst (regime (nonzero_values thermal_dn)) == 35).
    { destruct (regime_cases (nonzero_values thermal_dn)) as [R|R];
        rewrite R; cbn [fst snd]; repeat split; lra. }
    destruct Hw as (W1 & W2 & W3).
    split; [exact W1|]. split; [exact W2|]. split; [exact W3|].
    intros y Hy. apply in_valid_values_grid_map in Hy.
    destruct Hy as (z & _ & Hz).
    eapply lst_cell_within_regime; [lra|exact Hz].
Qed.

Lemma uhi_of_lst_bounded (thermal_dn : grid Z) (lst uhi : grid cell) :
  simple_lst_calculation thermal_dn = Ok lst ->
  simple_uhi_calculation lst = Ok uhi ->
  forall i j v, pixel uhi i j = Some (Some v) -> -35 <= v <= 35.
Proof.
  intros Hl Hu i j v H.
  destruct (lst_values_in_regime _ _ Hl) as (tmin & tmax & _ & _ & Hw & Hb).
  destruct (Np.valid_values lst) as [|x0 l0] eqn:E.
  - rewrite (simple_uhi_calculation_empty _ E) in Hu. injection Hu as <-.
    unfold Np.full_like in H. rewrite pixel_grid_map in H.
    destruct (pixel lst i j); discriminate.
  - assert (Hne : Np.valid_values lst <> []) by (rewrite E; discriminate).
    destruct (simple_uhi_calculation_nonempty _ Hne) as (m & Hm & Huhi).
    rewrite Huhi in Hu. injection Hu as <-.
    rewrite pixel_grid_map in H.
    destruct (pixel lst i j) as [[x|]|] eqn:Hp; try discriminate.
    cbn [option_map fsub lift2] in H. injection H as <-.
    apply pixel_valid in Hp. rewrite E in Hm, Hp.
    pose proof (Hb x Hp) as Hx.
    pose proof (median_between _ _ _ _ Hb Hm) as Hmb. lra.
Qed.

Lemma simple_lst_calculation_total (thermal_dn : grid Z) :
  exists lst, simple_lst_calculation thermal_dn = Ok lst.
Proof. destruct (lst_pixel_cases thermal_dn) as (out & H & _). eauto. Qed.

Lemma simple_uhi_calculation_total (lst_data : grid cell) :
  exists uhi, simple_uhi_calculation lst_data = Ok uhi.
Proof.
  unfold simple_uhi_calculation.
  destruct (length (Np.valid_values lst_data) =? 0)%nat; eauto.
Qed.

(** X10: fed with the temperature estimate of any thermal grid, the anomaly
    of every valid pixel lies in [-35, 35], the width of a regime range. *)
Theorem uhi_of_lst_within_regime_width (thermal_dn : grid Z) :
  exists lst uhi,
    simple_lst_calculation thermal_dn = Ok lst /\
    simple_uhi_calculation lst = Ok uhi /\
    forall i j v, pixel uhi i j = Some (Some v) -> -35 <= v <= 35.
Proof.
  destruct (simple_lst_calculation_total thermal_dn) as (lst & Hl).
  destruct (simple_uhi_calculation_total lst) as (uhi & Hu).
  exists lst, uhi. split; [exact Hl|]. split; [exact Hu|].
  eapply uhi_of_lst_bounded; eauto.
Qed.

(** X10 at the grid [[0, 5, 7, 40000]]. *)
Lemma uhi_of_lst_within_regime_width_witness :
  exists lst uhi v,
    simple_lst_calculation [[0; 5; 7; 40000]]%Z = Ok lst /\
    simple_uhi_calculation lst = Ok uhi /\
    pixel uhi 0 3 = Some (Some v) /\ -35 <= v <= 35.
Proof.
  destruct (uhi_of_lst_within_regime_width [[0; 5; 7; 40000]]%Z)
    as (lst & uhi & Hl & Hu & Hb).
  assert (Hp : exists v, pixel uhi 0 3 = Some (Some v)).
  { vm_compute in Hl. injection Hl as <-.
    vm_compute in Hu. injection Hu as <-. eexists. reflexivity. }
  destruct Hp as (v & Hp). exists lst, uhi, v. eauto.
Defined.

(** ** The sentinel of the saved rasters *)

Lemma round_to_1024ths_like_float32 : rounds_like_float32 round_to_1024ths.
Proof.
  unfold rounds_like_float32, round_to_1024ths. split.
  - intros x y H.
    assert (Hf : (Qfloor (x * 1024) <= Qfloor (y * 1024))%Z)
      by (apply Qfloor_resp_le; lra).
    rewrite Zle_Qle in Hf. unfold Qdiv.
    apply Qmult_le_compat_r; [exact Hf|discriminate].
  - intros z _.
    assert (E : inject_Z z * 1024 == inject_Z (z * 1024))
      by (rewrite inject_Z_mult; reflexivity).
    rewrite E, Qfloor_Z, inject_Z_mult. field.
Qed.

Lemma sentinel_unambiguous_of_bound (astype_float32 : Q -> Q)
  (data : grid cell) (bound : Z) :
  rounds_like_float32 astype_float32 ->
  (0 <= bound < 9999)%Z ->
  (forall i j x, pixel data i j = Some (Some x) -> inject_Z (- bound) <= x) ->
  sentinel_unambiguous astype_float32 data.
Proof.
  intros [Hmono Hint] Hb Hall. split.
  - unfold written_raster, save_data. now rewrite !shape_grid_map.
  - intros i j c Hp. unfold written_raster, save_data.
    rewrite !pixel_grid_map, Hp. cbn [option_map].
    destruct c as [x|]; cbn [isnan Np.where_ option_map].
    + exists (astype_float32 x). split; [reflexivity|]. split.
      * split; [|discriminate]. intro E. exfalso.
        pose proof (Hmono _ _ (Hall _ _ _ Hp)) as Hx.
        rewrite (Hint (- bound)%Z) in Hx by lia.
        assert (Hlt : -9999 < inject_Z (- bound)).
        { change (-9999) with (inject_Z (-9999)). rewrite <- Zlt_Qlt. lia. }
        lra.
      * intros y Hy. congruence.
    + exists (astype_float32 (-9999)). split; [reflexivity|]. split.
      * split; [reflexivity|]. intros _.
        change (-9999) with (inject_Z (-9999)). apply Hint. lia.
      * discriminate.
Qed.

(** X11: in the three rasters a scene is saved as, a pixel holds the
    sentinel -9999 exactly where the index is invalid, and a valid pixel
    holds the index value rounded to binary32: no index value can be
    mistaken for the sentinel, before or after the rounding. *)
Theorem saved_indices_sentinel_unambiguous (astype_float32 : Q -> Q)
  (red_dn nir_dn thermal_dn : grid Z) :
  rounds_like_float32 astype_float32 ->
  exists lst ndvi uhi,
    simple_lst_calculation thermal_dn = Ok lst /\
    simple_ndvi_calculation red_dn nir_dn = Ok ndvi /\
    simple_uhi_calculation lst = Ok uhi /\
    sentinel_unambiguous astype_float32 lst /\
    sentinel_unambiguous astype_float32 ndvi /\
    sentinel_unambiguous astype_float32 uhi.
Proof.
  intro Hf.
  destruct (simple_lst_calculation_total thermal_dn) as (lst & Hl).
  destruct (simple_uhi_calculation_total lst) as (uhi & Hu).
  exists lst. eexists. exists uhi.
  split; [exact Hl|]. split; [reflexivity|]. split; [exact Hu|].
  split; [|split].
  - apply (sentinel_unambiguous_of_bound _ _ 0 Hf); [lia|].
    intros i j x Hp. apply pixel_valid in Hp.
    destruct (lst_values_in_regime _ _ Hl) as (tmin & tmax & H1 & _ & _ & Hb).
    specialize (Hb _ Hp). unfold inject_Z, Z.opp. lra.
  - apply (sentinel_unambiguous_of_bound _ _ 1 Hf); [lia|].
    intros i j x Hp. rewrite pixel_grid_map2 in Hp.
    destruct (pixel red_dn i j) as [r|]; [|discriminate].
    destruct (pixel nir_dn i j) as [n|]; [|discriminate].
    injection Hp as Hp. apply ndvi_cell_bounds in Hp.
    unfold inject_Z, Z.opp. lra.
  - apply (sentinel_unambiguous_of_bound _ _ 35 Hf); [lia|].
    intros i j x Hp.
    pose proof (uhi_of_lst_bounded _ _ _ Hl Hu _ _ _ Hp).
    unfold inject_Z, Z.opp. lra.
Qed.

(** X11 at the thermal grid [[0, 5, 7, 40000]] with a rounding that keeps
    ten binary digits after the point. *)
Lemma saved_indices_sentinel_unambiguous_witness :
  rounds_like_float32 round_to_1024ths /\
  exists lst ndvi uhi,
    simple_lst_calculation [[0; 5; 7; 40000]]%Z = Ok lst /\
    simple_ndvi_calculation [[10; 0; 30; 9]]%Z [[40; 30; 20; 11]]%Z
      = Ok ndvi /\
    simple_uhi_calculation lst = Ok uhi /\
    sentinel_unambiguous round_to_1024ths lst /\
    sentinel_unambiguous round_to_1024ths ndvi /\
    sentinel_unambiguous round_to_1024ths uhi.
Proof.
  split; [exact round_to_1024ths_like_float32|].
  exact (saved_indices_sentinel_unambiguous round_to_1024ths
           [[10; 0; 30; 9]]%Z [[40; 30; 20; 11]]%Z [[0; 5; 7; 40000]]%Z
           round_to_1024ths_like_float32).
Defined.

(** The sentinel is ambiguous for a grid that holds -9999 itself. *)
Lemma sentinel_ambiguous_example (astype_float32 : Q -> Q) :
  rounds_like_float32 astype_float32 ->
  ~ sentinel_unambiguous astype_float32 [[Some (-9999)]].
Proof.
  intros [_ Hint] [_ H].
  destruct (H 0%nat 0%nat (Some (-9999)) eq_refl) as (s & Hs & [Hiff _] & _).
  cbn in Hs. injection Hs as <-.
  assert (E : astype_float32 (-9999) == -9999).
  { change (-9999) with (inject_Z (-9999)). apply Hint. lia. }
  apply Hiff in E. discriminate.
Qed.

(** ** Statistics: consistency *)

Lemma index_stats_ordered (c3 c4 : cell) (valid : list Q) (lo hi : Q) :
  valid <> [] ->
  (In lo valid /\ forall y, In y valid -> lo <= y) ->
  (In hi valid /\ forall y, In y valid -> y <= hi) ->
  c3 = Some (Np.sum valid / Np.of_nat (length valid)) ->
  c4 = Some (Np.sqrt (Np.var valid)) ->
  exists mean sd,
    c3 = Some mean /\ c4 = Some sd /\ lo <= hi /\ 0 <= sd.
Proof.
  intros Hne [Hlo1 Hlo] [Hhi1 Hhi] -> ->. do 2 eexists.
  split; [reflexivity|]. split; [reflexivity|].
  split; [now apply Hlo|].
  assert (Hstd : Np.std valid = Some (Np.sqrt (Np.var valid)))
    by (destruct valid; [congruence|reflexivity]).
  apply std_square_le in Hstd. now destruct Hstd.
Qed.

(** One grid's statistics, ordered. *)
Ltac ordered P :=
  let H := fresh "H" in
  let lo := fresh "lo" in
  let hi := fresh "hi" in
  let Hlo := fresh "Hlo" in
  let Hhi := fresh "Hhi" in
  let E1 := fresh "E" in
  let E2 := fresh "E" in
  let E3 := fresh "E" in
  let E4 := fresh "E" in
  let mean := fresh "mean" in
  let sd := fresh "sd" in
  let Hm := fresh "Hm" in
  let Hs := fresh "Hs" in
  intro H; destruct (P H) as (lo & hi & Hlo & Hhi & E1 & E2 & E3 & E4);
  destruct (index_stats_ordered _ _ _ lo hi H Hlo Hhi E3 E4)
    as (mean & sd & -> & -> & Hm & Hs);
  subst; exists lo, hi, mean, sd;
  split; [dict_lookup|]; split; [dict_lookup|]; split; [dict_lookup|];
  split; [dict_lookup|]; split; assumption.

(** X12: [calculate_simple_stats] never raises, and for every index with a
    valid pixel its four entries are numbers with min <= max and a standard
    deviation that is not negative. *)
Theorem stats_are_ordered (lst ndvi uhi : grid cell) :
  exists stats,
    calculate_simple_stats lst ndvi uhi = Ok stats /\
    (Np.valid_values lst <> [] -> stats_ordered stats "LST") /\
    (Np.valid_values ndvi <> [] -> stats_ordered stats "NDVI") /\
    (Np.valid_values uhi <> [] -> stats_ordered stats "UHI").
Proof.
  unfold calculate_simple_stats.
  destruct (index_stats_result "LST" lst [])
    as (a1 & a2 & a3 & a4 & Ea & Pa & _).
  rewrite Ea. cbn [bind].
  match goal with |- context [index_stats "NDVI" ndvi ?d] =>
    destruct (index_stats_result "NDVI" ndvi d)
      as (b1 & b2 & b3 & b4 & Eb & Pb & _) end.
  rewrite Eb. cbn [bind].
  match goal with |- context [index_stats "UHI" uhi ?d] =>
    destruct (index_stats_result "UHI" uhi d)
      as (c1 & c2 & c3 & c4 & Ec & Pc & _) end.
  rewrite Ec. cbn [bind].
  eexists. split; [reflexivity|].
  cbn [append]. unfold stats_ordered.
  split; [|split].
  - ordered Pa.
  - ordered Pb.
  - ordered Pc.
Qed.

(** X12 at a temperature grid with two valid pixels. *)
Lemma stats_are_ordered_witness :
  exists stats,
    calculate_simple_stats [[Some 20; nan; Some 30]] [[nan]] [[Some 5]]
      = Ok stats /\
    stats_ordered stats "LST" /\ stats_ordered stats "UHI".
Proof.
  destruct (stats_are_ordered [[Some 20; nan; Some 30]] [[nan]] [[Some 5]])
    as (stats & Hs & H1 & _ & H3).
  exists stats. split; [exact Hs|].
  split; [apply H1|apply H3]; discriminate.
Defined.

(** ** Scene processor *)

Lemma dn_range_report_spec (band : grid Z) :
  (has_positive band /\ exists r, dn_range_report band = Ok r) \/
  (~ has_positive band /\ dn_range_report band = Raise ValueError).
Proof.
  unfold dn_range_report, has_positive.
  destruct (filter (fun z => (0 <? z)%Z) (ravel band)) as [|x l] eqn:E.
  - right. split; [|reflexivity].
    intros (z & Hin & Hz).
    assert (Hf : In z (filter (fun z => (0 <? z)%Z) (ravel band)))
      by (apply filter_In; split; [exact Hin|now apply Z.ltb_lt]).
    rewrite E in Hf. contradiction.
  - left.
    assert (Hx : In x (filter (fun z => (0 <? z)%Z) (ravel band)))
      by (rewrite E; now left).
    apply filter_In in Hx. destruct Hx as [Hin Hx]. apply Z.ltb_lt in Hx.
    split; [eauto|].
    destruct (ravel band) as [|y m]; [contradiction|].
    cbn [int_min int_max bind]. eauto.
Qed.

Lemma create_simple_plot_total (data : grid cell) (title : string) :
  exists r, create_simple_plot data title = Ok r.
Proof.
  unfold create_simple_plot.
  destruct (Np.valid_values data) as [|x l];
    destruct (str_in "LST" title || str_in "Temperature" title);
    destruct (str_in "UHI" title);
    eexists; reflexivity.
Qed.

Lemma calculate_simple_stats_keys (lst ndvi uhi : grid cell) :
  exists stats,
    calculate_simple_stats lst ndvi uhi = Ok stats /\
    dict_keys (dict_set stats "Period" (VStr ""%string)) = stats_keys /\
    forall k, In k stats_keys -> k <> "Period"%string ->
      exists c, dict_get stats k = Some (VFloat c).
Proof.
  unfold calculate_simple_stats.
  destruct (index_stats_result "LST" lst [])
    as (a1 & a2 & a3 & a4 & Ea & _).
  rewrite Ea. cbn [bind].
  match goal with |- context [index_stats "NDVI" ndvi ?d] =>
    destruct (index_stats_result "NDVI" ndvi d)
      as (b1 & b2 & b3 & b4 & Eb & _) end.
  rewrite Eb. cbn [bind].
  match goal with |- context [index_stats "UHI" uhi ?d] =>
    destruct (index_stats_result "UHI" uhi d)
      as (c1 & c2 & c3 & c4 & Ec & _) end.
  rewrite Ec. cbn [bind].
  eexists. split; [reflexivity|]. split; [reflexivity|].
  intros k Hk Hp. unfold stats_keys in Hk. cbn [In] in Hk.
  repeat (destruct Hk as [<-|Hk]; [eexists; dict_lookup|]);
    destruct Hk as [<-|[]]; congruence.
Qed.

Lemma dict_keys_set_period (stats : dict value) (p q : string) :
  dict_keys (dict_set stats "Period" (VStr p))
  = dict_keys (dict_set stats "Period" (VStr q)).
Proof.
  induction stats as [|[k v] stats IH]; cbn [dict_set]; [reflexivity|].
  destruct (String.eqb k "Period"); cbn [dict_keys map fst]; [reflexivity|].
  f_equal. exact IH.
Qed.

(** X13: a scene is processed without an exception exactly when its raster
    can be read, has bands at offsets 3, 4 and 7, and each of these three
    bands has a pixel above zero. *)
Theorem process_image_succeeds_iff (w : World) (image_path period : string) :
  (exists stats, process_image w image_path period = Ok stats) <->
  (exists bands red nir thermal,
     rasterio_read w image_path = Ok bands /\
     nth_error bands 3 = Some red /\
     nth_error bands 4 = Some nir /\
     nth_error bands 7 = Some thermal /\
     has_positive red /\ has_positive nir /\ has_positive thermal).
Proof.
  unfold process_image, getitem. split.
  - intros (stats & H).
    destruct (rasterio_read w image_path) as [bands|e] eqn:Hread;
      [|discriminate].
    cbn [bind] in H.
    destruct (nth_error bands 3) as [red|] eqn:H3; [|discriminate].
    destruct (nth_error bands 4) as [nir|] eqn:H4; [|discriminate].
    destruct (nth_error bands 7) as [thermal|] eqn:H7; [|discriminate].
    cbn [bind] in H.
    destruct (dn_range_report_spec red) as [[P1 _]|[_ E1]];
      [|rewrite E1 in H; discriminate].
    destruct (dn_range_report_spec nir) as [[P2 [r2 E2]]|[_ E2]];
      [|destruct (dn_range_report red); [rewrite E2 in H|]; discriminate].
    destruct (dn_range_report_spec thermal) as [[P3 _]|[_ E3]].
    + exists bands, red, nir, thermal. repeat split; assumption || reflexivity.
    + destruct (dn_range_report red); [|discriminate].
      rewrite E2, E3 in H. discriminate.
  - intros (bands & red & nir & thermal & Hread & H3 & H4 & H7 & P1 & P2 & P3).
    rewrite Hread. cbn [bind]. rewrite H3, H4, H7. cbn [bind].
    destruct (dn_range_report_spec red) as [[_ [r1 ->]]|[N _]]; [|tauto].
    destruct (dn_range_report_spec nir) as [[_ [r2 ->]]|[N _]]; [|tauto].
    destruct (dn_range_report_spec thermal) as [[_ [r3 ->]]|[N _]]; [|tauto].
    cbn [bind].
    destruct (simple_lst_calculation_total thermal) as (lst & ->).
    unfold simple_ndvi_calculation. cbn [bind].
    destruct (simple_uhi_calculation_total lst) as (uhi & ->). cbn [bind].
    unfold save_outputs.
    destruct (create_simple_plot_total lst (plot_title period "LST"))
      as (p1 & ->).
    destruct (create_simple_plot_total (grid_map2 ndvi_cell red nir)
                (plot_title period "NDVI")) as (p2 & ->).
    destruct (create_simple_plot_total uhi (plot_title period "UHI"))
      as (p3 & ->).
    cbn [bind].
    destruct (calculate_simple_stats_keys lst (grid_map2 ndvi_cell red nir) uhi)
      as (stats & -> & _).
    cbn [bind]. eauto.
Qed.

(** Peeling the successful steps off a chain of binds. *)
Ltac bind_ok H :=
  repeat match type of H with
         | bind ?c _ = Ok _ =>
             let E := fresh "E" in
             destruct c eqn:E; cbn [bind] in H; [|discriminate H]
         end.

Lemma process_image_inv (w : World) (image_path period : string)
  (stats : dict value) :
  process_image w image_path period = Ok stats ->
  exists lst ndvi uhi stats0,
    calculate_simple_stats lst ndvi uhi = Ok stats0 /\
    stats = dict_set stats0 "Period" (VStr period).
Proof.
  unfold process_image. intro H. bind_ok H.
  injection H as <-. do 4 eexists. split; [eassumption|reflexivity].
Qed.

(** X14: the statistics row of a processed scene has the thirteen columns
    LST_min ... UHI_std, Period in this order; Period holds the label the
    scene was processed under and every other column a number or nan. *)
Theorem process_image_row_layout (w : World) (image_path period : string)
  (stats : dict value) :
  process_image w image_path period = Ok stats ->
  dict_keys stats = stats_keys /\
  dict_get stats "Period" = Some (VStr period) /\
  forall k, In k stats_keys -> k <> "Period"%string ->
    exists c, dict_get stats k = Some (VFloat c).
Proof.
  intro H. apply process_image_inv in H.
  destruct H as (lst & ndvi & uhi & stats0 & Hs & ->).
  destruct (calculate_simple_stats_keys lst ndvi uhi) as (s & Hs' & Hk & Hv).
  assert (s = stats0) by congruence. subst s.
  split; [now rewrite (dict_keys_set_period _ period "")|].
  split; [apply dict_get_set_same|].
  intros k Hin Hne. rewrite dict_get_set_other by congruence. now apply Hv.
Qed.

(** X14 at a readable raster of eight one-pixel bands. *)
Lemma process_image_row_layout_witness :
  exists stats,
    process_image colliding_world "any.tif" "winter" = Ok stats /\
    dict_keys stats = stats_keys /\
    dict_get stats "Period" = Some (VStr "winter").
Proof.
  assert (H : exists stats,
             process_image colliding_world "any.tif" "winter" = Ok stats)
    by (eexists; vm_compute; reflexivity).
  destruct H as (stats & H). exists stats. split; [exact H|].
  destruct (process_image_row_layout _ _ _ _ H) as (Hk & Hp & _). auto.
Defined.

(** X15: a scene whose thermal band has no pixel above zero is rejected
    with ValueError when its band ranges are reported, although the
    temperature estimate itself accepts such a band. *)
Theorem process_image_rejects_empty_thermal
  (w : World) (image_path period : string)
  (bands : list (grid Z)) (red nir thermal : grid Z) :
  rasterio_read w image_path = Ok bands ->
  nth_error bands 3 = Some red ->
  nth_error bands 4 = Some nir ->
  nth_error bands 7 = Some thermal ->
  has_positive red -> has_positive nir -> ~ has_positive thermal ->
  process_image w image_path period = Raise ValueError /\
  exists lst, simple_lst_calculation thermal = Ok lst.
Proof.
  intros Hread H3 H4 H7 P1 P2 N3.
  split; [|apply simple_lst_calculation_total].
  unfold process_image, getitem.
  rewrite Hread. cbn [bind]. rewrite H3, H4, H7. cbn [bind].
  destruct (dn_range_report_spec red) as [[_ [r1 ->]]|[N _]]; [|tauto].
  destruct (dn_range_report_spec nir) as [[_ [r2 ->]]|[N _]]; [|tauto].
  destruct (dn_range_report_spec thermal) as [[P _]|[_ ->]]; [tauto|].
  reflexivity.
Qed.

(** X15 at a raster whose thermal band is the single pixel 0. *)
Lemma process_image_rejects_empty_thermal_witness :
  process_image zero_thermal_world "s1.tif" "s1" = Raise ValueError /\
  exists lst, simple_lst_calculation [[0%Z]] = Ok lst.
Proof.
  assert (P : has_positive [[1%Z]]) by (exists 1%Z; split; [now left|lia]).
  assert (N : ~ has_positive [[0%Z]]).
  { intros (z & [<-|[]] & Hz). lia. }
  exact (process_image_rejects_empty_thermal zero_thermal_world
           "s1.tif" "s1" _ [[1%Z]] [[1%Z]] [[0%Z]]
           eq_refl eq_refl eq_refl eq_refl P P N).
Defined.

(** ** Batch driver: what the summary holds in general *)






Section Collected.

Variable self : SimpleLandsatAnalysis.
Variable w : World.


Lemma run_analysis_collected :
  run_analysis self w =
    Ok (match collected self w with
        | [] => None
        | _ => Some (dict_values (collected self w))
        end).
Proof.
  unfold run_analysis, collected, scene_files.
  destruct (filter (fun f => endswith f ".tif") (listdir w)) as [|f fs];
    [reflexivity|].
  now destruct (fold_left (run_scene self w) (sorted (f :: fs)) []).
Qed.



End Collected.

(** ** Period labels and file names *)

Lemma prefix_app_cases (t r s : string) :
  String.prefix r (t ++ s) = true ->
  String.prefix r t = true \/
  exists r', r = (t ++ r')%string /\ String.prefix r' s = true.
Proof.
  revert r. induction t as [|c t IH]; intros r H.
  - right. exists r. auto.
  - destruct r as [|a r]; [now left|].
    cbn [append String.prefix] in H |- *.
    destruct (ascii_dec a c) as [->|]; [|discriminate].
    destruct (IH r H) as [Hp|(r' & -> & Hp)]; [now left|].
    right. exists r'. auto.
Qed.

Lemma str_in_cons_false (needle : string) (c : ascii) (hay : string) :
  str_in needle (String c hay) = false ->
  String.prefix needle (String c hay) = false /\ str_in needle hay = false.
Proof.
  cbn [str_in]. destruct (String.prefix needle (String c hay)); auto.
  discriminate.
Qed.

(** Splitting the suffix over the end of a label: every case but the exact
    one is refuted by computation. *)
Ltac straddle Heq Hp Hstr :=
  match type of Heq with
  | _ = (?t ++ _)%string =>
      destruct t as [|? t]; cbn [append] in Heq;
      [ subst; first [ discriminate Hp | discriminate Hstr ]
      | first [ discriminate Heq
              | injection Heq as <- Heq; straddle Heq Hp Hstr ] ]
  end.

Lemma suffix_does_not_straddle (c : ascii) (t : string) :
  str_in "_clipped_NGP.tif" (String c t) = false ->
  String.prefix "_clipped_NGP.tif" (String c t ++ "_clipped_NGP.tif") = false.
Proof.
  intro Hstr.
  destruct (String.prefix "_clipped_NGP.tif"
              (String c t ++ "_clipped_NGP.tif")) eqn:E; [|reflexivity].
  exfalso. apply prefix_app_cases in E.
  destruct E as [E|(r' & Heq & Hp)].
  - apply str_in_cons_false in Hstr. destruct Hstr as [Hstr _]. congruence.
  - cbn [append] in Heq. injection Heq as <- Heq.
    straddle Heq Hp Hstr.
Qed.

Lemma period_of_clipped (period : string) :
  str_in "_clipped_NGP.tif" period = false ->
  period_of (clipped_name period) = period.
Proof.
  unfold period_of, clipped_name, replace. intro H.
  induction period as [|c t IH]; [reflexivity|].
  pose proof (suffix_does_not_straddle c t H) as Hp.
  apply str_in_cons_false in H. destruct H as [_ H].
  change ((String c t ++ "_clipped_NGP.tif")%string)
    with (String c (t ++ "_clipped_NGP.tif")) in *.
  cbn [replace_from]. rewrite Hp. f_equal. now apply IH.
Qed.

(** X17: the period label is recovered from the name the clipping script
    gives a scene: stripping the suffix from [period ++ "_clipped_NGP.tif"]
    gives [period] back, for every period that does not itself contain the
    suffix; and the name is a scene file for the batch driver. *)
Theorem period_of_clipped_name (period : string) :
  str_in "_clipped_NGP.tif" period = false ->
  period_of (clipped_name period) = period /\
  endswith (clipped_name period) ".tif" = true.
Proof.
  intro H. split; [now apply period_of_clipped|].
  unfold clipped_name. clear H. induction period as [|c t IH]; [reflexivity|].
  cbn [append endswith].
  destruct (String.eqb (String c (t ++ "_clipped_NGP.tif")) ".tif");
    [reflexivity|exact IH].
Qed.

(** X17 at the period hot_may_2023. *)
Lemma period_of_clipped_name_witness :
  str_in "_clipped_NGP.tif" "hot_may_2023" = false /\
  period_of "hot_may_2023_clipped_NGP.tif" = "hot_may_2023"%string /\
  endswith "hot_may_2023_clipped_NGP.tif" ".tif" = true.
Proof.
  assert (H : str_in "_clipped_NGP.tif" "hot_may_2023" = false) by reflexivity.
  split; [exact H|]. exact (period_of_clipped_name "hot_may_2023" H).
Defined.

(** ** The order of the scene files *)

Lemma ascii_compare_refl (a : ascii) : Ascii.compare a a = Eq.
Proof. unfold Ascii.compare. apply N.compare_refl. Qed.

Lemma string_compare_refl (s : string) : String.compare s s = Eq.
Proof.
  induction s as [|a s IH]; cbn [String.compare]; [reflexivity|].
  now rewrite ascii_compare_refl.
Qed.

Lemma string_compare_lt_trans (a b c : string) :
  String.compare a b = Lt -> String.compare b c = Lt ->
  String.compare a c = Lt.
Proof.
  revert b c. induction a as [|x a IH]; intros [|y b] [|z c];
    cbn [String.compare]; try discriminate; auto.
  destruct (Ascii.compare x y) eqn:Exy; try discriminate;
    destruct (Ascii.compare y z) eqn:Eyz; try discriminate; intros H1 H2.
  - apply Ascii.compare_eq_iff in Exy, Eyz. subst.
    rewrite ascii_compare_refl. eauto.
  - apply Ascii.compare_eq_iff in Exy. subst. now rewrite Eyz.
  - apply Ascii.compare_eq_iff in Eyz. subst. now rewrite Exy.
  - assert (E : Ascii.compare x z = Lt).
    { unfold Ascii.compare in *. rewrite N.compare_lt_iff in *. lia. }
    now rewrite E.
Qed.

Lemma string_leb_cases (a b : string) :
  String.leb a b = true <-> a = b \/ String.compare a b = Lt.
Proof.
  unfold String.leb. split.
  - destruct (String.compare a b) eqn:E; try discriminate; auto.
    left. now apply String.compare_eq_iff.
  - intros [->|E]; [now rewrite string_compare_refl|now rewrite E].
Qed.

Lemma string_leb_trans (a b c : string) :
  String.leb a b = true -> String.leb b c = true -> String.leb a c = true.
Proof.
  rewrite !string_leb_cases. intros [->|H1] [->|H2]; auto.
  right. eapply string_compare_lt_trans; eauto.
Qed.

Lemma string_leb_false (a b : string) :
  String.leb a b = false -> String.leb b a = true.
Proof.
  intro H. destruct (String.leb_total a b) as [E|E]; congruence.
Qed.

Lemma insert_str_comm (x y : string) (l : list string) :
  insert_str x (insert_str y l) = insert_str y (insert_str x l).
Proof.
  induction l as [|z l IH]; cbn [insert_str].
  - destruct (String.leb x y) eqn:Hxy, (String.leb y x) eqn:Hyx;
      cbn [insert_str]; rewrite ?Hxy, ?Hyx; try reflexivity.
    + now rewrite (String.leb_antisym _ _ Hxy Hyx).
    + apply string_leb_false in Hxy. congruence.
  - destruct (String.leb y z) eqn:Hyz, (String.leb x z) eqn:Hxz;
      cbn [insert_str].
    + destruct (String.leb x y) eqn:Hxy, (String.leb y x) eqn:Hyx;
        cbn [insert_str]; rewrite ?Hxz, ?Hyz; try reflexivity.
      * now rewrite (String.leb_antisym _ _ Hxy Hyx).
      * apply string_leb_false in Hxy. congruence.
    + assert (Hxy : String.leb x y = false).
      { destruct (String.leb x y) eqn:E; [|reflexivity].
        rewrite (string_leb_trans _ _ _ E Hyz) in Hxz. discriminate. }
      rewrite Hxy. cbn [insert_str]. now rewrite Hxz, Hyz.
    + assert (Hyx : String.leb y x = false).
      { destruct (String.leb y x) eqn:E; [|reflexivity].
        rewrite (string_leb_trans _ _ _ E Hxz) in Hyz. discriminate. }
      rewrite Hyx. cbn [insert_str]. now rewrite Hxz, Hyz.
    + rewrite Hxz, Hyz. now rewrite IH.
Qed.

Lemma sorted_permutation_eq (l l' : list string) :
  Permutation l l' -> sorted l = sorted l'.
Proof.
  induction 1 as [|x l l' _ IH|x y l|l l' l'' _ IH1 _ IH2]; cbn [sorted].
  - reflexivity.
  - now rewrite IH.
  - apply insert_str_comm.
  - congruence.
Qed.

Lemma insert_str_perm (x : string) (l : list string) :
  Permutation (x :: l) (insert_str x l).
Proof.
  induction l as [|y l IH]; cbn [insert_str]; [reflexivity|].
  destruct (String.leb x y); [reflexivity|].
  rewrite perm_swap. now apply perm_skip.
Qed.

Lemma sorted_perm (l : list string) : Permutation l (sorted l).
Proof.
  induction l as [|x l IH]; cbn [sorted]; [reflexivity|].
  rewrite <- insert_str_perm. now apply perm_skip.
Qed.

Lemma filter_permutation (keep : string -> bool) (files files' : list string) :
  Permutation files files' -> Permutation (filter keep files) (filter keep files').
Proof.
  induction 1 as [|x l l' _ IH|x y l|l l' l'' _ IH1 _ IH2]; cbn [filter].
  - reflexivity.
  - destruct (keep x); [now apply perm_skip|exact IH].
  - destruct (keep x), (keep y); try reflexivity. apply perm_swap.
  - now rewrite IH1.
Qed.

Lemma process_image_read_ext (w w' : World) (image_path period : string) :
  (forall path, rasterio_read w path = rasterio_read w' path) ->
  process_image w image_path period = process_image w' image_path period.
Proof. intro H. unfold process_image. now rewrite H. Qed.

Lemma run_scenes_read_ext (self : SimpleLandsatAnalysis) (w w' : World)
  (files : list string) (acc : dict (dict value)) :
  (forall path, rasterio_read w path = rasterio_read w' path) ->
  fold_left (run_scene self w) files acc
  = fold_left (run_scene self w') files acc.
Proof.
  intro H. revert acc. induction files as [|f files IH]; intro acc;
    cbn [fold_left]; [reflexivity|].
  rewrite IH. f_equal. unfold run_scene.
  now rewrite (process_image_read_ext w w' _ _ H).
Qed.

(** X18: the run does not depend on the order in which the directory
    listing returns the files: two listings with the same files, read alike,
    give the same summary. *)
Theorem run_analysis_listing_order (self : SimpleLandsatAnalysis) (w w' : World) :
  Permutation (listdir w) (listdir w') ->
  (forall path, rasterio_read w path = rasterio_read w' path) ->
  run_analysis self w = run_analysis self w'.
Proof.
  intros Hp Hr. rewrite !run_analysis_collected.
  assert (E : collected self w = collected self w').
  { unfold collected, scene_files.
    rewrite (sorted_permutation_eq _ _
               (filter_permutation (fun f => endswith f ".tif") _ _ Hp)).
    now apply run_scenes_read_ext. }
  now rewrite E.
Qed.

(** X18 at the three scenes of which the second cannot be opened, listed
    in reverse. *)
Lemma run_analysis_listing_order_witness :
  Permutation (listdir second_fails_world)
    (listdir second_fails_world_reversed) /\
  run_analysis (init "base") second_fails_world
  = run_analysis (init "base") second_fails_world_reversed.
Proof.
  assert (Hp : Permutation (listdir second_fails_world)
                 (listdir second_fails_world_reversed))
    by apply Permutation_rev.
  split; [exact Hp|].
  exact (run_analysis_listing_order (init "base") second_fails_world
           second_fails_world_reversed Hp (fun _ => eq_refl)).
Defined.

(** ** Scenes named by the clipping script *)






(** ** Output directories *)

(** X20: [setup_directories] creates the output directory and, for each
    scene file the batch driver will process, the directory of its period
    label, and no other directory. *)
Theorem setup_directories_match_scenes
  (self : SimpleLandsatAnalysis) (w : World) (d : string) :
  In d (setup_directories self w) <->
  d = output_dir self \/
  exists f, In f (scene_files w) /\ d = period_dir self (period_of f).
Proof.
  unfold setup_directories, scene_files, period_dir. cbn [In].
  rewrite map_map, in_map_iff. split.
  - intros [H|(f & <- & Hf)]; [now left|].
    right. exists f. split; [|reflexivity].
    eapply Permutation_in; [apply sorted_perm|exact Hf].
  - intros [H|(f & Hf & ->)]; [now left|].
    right. exists f. split; [reflexivity|].
    eapply Permutation_in; [apply Permutation_sym, sorted_perm|exact Hf].
Qed.

(** ** Percentiles are ordered *)

Lemma sorted_nth_le (s : list Q) (i j : nat) :
  Sorted Qle s -> (i <= j)%nat -> (j < length s)%nat ->
  nth i s 0 <= nth j s 0.
Proof.
  intro Hs. apply Sorted_StronglySorted in Hs;
    [|intros x y z; apply Qle_trans].
  revert i j. induction Hs as [|x s Hs IH Hall]; intros i j Hij Hj.
  - cbn [length] in Hj. lia.
  - destruct i as [|i], j as [|j]; cbn [nth length] in *; try lia.
    + lra.
    + rewrite Forall_forall in Hall. apply Hall. apply nth_In. lia.
    + apply IH; lia.
Qed.

Lemma virtual_index_floor_le (q1 q2 : Q) (n : nat) :
  0 <= q1 -> q1 <= q2 ->
  (Z.to_nat (Qfloor (q1 / 100 * Np.of_nat (n - 1)))
   <= Z.to_nat (Qfloor (q2 / 100 * Np.of_nat (n - 1))))%nat.
Proof.
  intros H0 H. apply Z2Nat.inj_le.
  - assert (0 <= q1 / 100 * Np.of_nat (n - 1)).
    { pose proof (of_nat_nonneg (n - 1)).
      assert (0 <= q1 / 100) by (apply Qle_shift_div_l; lra). nra. }
    apply Qfloor_resp_le in H1. exact H1.
  - assert (0 <= q2 / 100 * Np.of_nat (n - 1)).
    { pose proof (of_nat_nonneg (n - 1)).
      assert (0 <= q2 / 100) by (apply Qle_shift_div_l; lra). nra. }
    apply Qfloor_resp_le in H1. exact H1.
  - apply Qfloor_resp_le. pose proof (of_nat_nonneg (n - 1)).
    assert (q1 / 100 <= q2 / 100).
    { unfold Qdiv. apply Qmult_le_compat_r; [exact H|]. now vm_compute. }
    nra.
Qed.

(** A higher percentile of the same data is not smaller. *)
Lemma percentile_monotone (a : list Q) (q1 q2 p1 p2 : Q) :
  0 <= q1 -> q1 <= q2 -> q2 <= 100 ->
  Np.percentile a q1 = Ok p1 -> Np.percentile a q2 = Ok p2 -> p1 <= p2.
Proof.
  intros H0 H12 H100 Hp1 Hp2.
  assert (Hne : a <> []) by (intros ->; discriminate).
  rewrite (percentile_unfold _ q1 Hne) in Hp1.
  rewrite (percentile_unfold _ q2 Hne) in Hp2.
  set (n := length a) in *.
  assert (Hn : (0 < n)%nat)
    by (unfold n; destruct a; [congruence|cbn [length]; lia]).
  assert (Hq1 : 0 <= q1 <= 100) by lra.
  assert (Hq2 : 0 <= q2 <= 100) by lra.
  destruct (virtual_index_bounds q1 n Hq1 Hn) as (_ & Hk1 & Hg1).
  destruct (virtual_index_bounds q2 n Hq2 Hn) as (_ & Hk2 & Hg2).
  pose proof (virtual_index_floor_le q1 q2 n H0 H12) as Hk.
  assert (Hv : q1 / 100 * Np.of_nat (n - 1) <= q2 / 100 * Np.of_nat (n - 1)).
  { pose proof (of_nat_nonneg (n - 1)).
    assert (q1 / 100 <= q2 / 100).
    { unfold Qdiv. apply Qmult_le_compat_r; [exact H12|]. now vm_compute. }
    nra. }
  set (v1 := q1 / 100 * Np.of_nat (n - 1)) in *.
  set (v2 := q2 / 100 * Np.of_nat (n - 1)) in *.
  set (k1 := Z.to_nat (Qfloor v1)) in *.
  set (k2 := Z.to_nat (Qfloor v2)) in *.
  pose proof (sort_sorted a) as Hs.
  assert (Hlen : length (Np.sort a) = n) by apply sort_length.
  assert (L1 : nth k1 (Np.sort a) 0 <= nth (Nat.min (k1 + 1) (n - 1)) (Np.sort a) 0)
    by (apply sorted_nth_le; [exact Hs|lia|lia]).
  assert (L2 : nth k2 (Np.sort a) 0 <= nth (Nat.min (k2 + 1) (n - 1)) (Np.sort a) 0)
    by (apply sorted_nth_le; [exact Hs|lia|lia]).
  assert (E1 : p1 = nth k1 (Np.sort a) 0
                    + (nth (Nat.min (k1 + 1) (n - 1)) (Np.sort a) 0
                       - nth k1 (Np.sort a) 0) * (v1 - Np.of_nat k1))
    by congruence.
  assert (E2 : p2 = nth k2 (Np.sort a) 0
                    + (nth (Nat.min (k2 + 1) (n - 1)) (Np.sort a) 0
                       - nth k2 (Np.sort a) 0) * (v2 - Np.of_nat k2))
    by congruence.
  rewrite E1, E2. clear E1 E2 Hp1 Hp2.
  destruct (Nat.eq_dec k1 k2) as [Ek|Ek].
  - rewrite <- Ek in *.
    set (lo := nth k1 (Np.sort a) 0) in *.
    set (hi := nth (Nat.min (k1 + 1) (n - 1)) (Np.sort a) 0) in *.
    nra.
  - assert (M : nth (Nat.min (k1 + 1) (n - 1)) (Np.sort a) 0
                <= nth k2 (Np.sort a) 0)
      by (apply sorted_nth_le; [exact Hs|lia|lia]).
    set (lo1 := nth k1 (Np.sort a) 0) in *.
    set (hi1 := nth (Nat.min (k1 + 1) (n - 1)) (Np.sort a) 0) in *.
    set (lo2 := nth k2 (Np.sort a) 0) in *.
    set (hi2 := nth (Nat.min (k2 + 1) (n - 1)) (Np.sort a) 0) in *.
    set (g1 := v1 - Np.of_nat k1) in *.
    set (g2 := v2 - Np.of_nat k2) in *.
    assert (lo1 + (hi1 - lo1) * g1 <= hi1) by nra.
    assert (lo2 <= lo2 + (hi2 - lo2) * g2) by nra.
    lra.
Qed.

(** ** Colour ranges: shape of the three rules *)

(** X21: under the anomaly rule the colour range is centred on zero and
    never wider than [-12, 12], with or without valid pixels. *)
Theorem anomaly_range_symmetric_and_capped (data : grid cell) (title : string) :
  str_in "LST" title || str_in "Temperature" title = false ->
  str_in "UHI" title = true ->
  exists vmin vmax,
    create_simple_plot data title = Ok (Some vmin, Some vmax) /\
    vmin == - vmax /\ 0 <= vmax <= 12.
Proof.
  intros Ht Hu.
  destruct (create_simple_plot_anomaly data title Ht Hu) as [Hv He].
  destruct (Np.valid_values data) as [|x l] eqn:E.
  - exists (-8), 8. split; [now apply He|]. split; [reflexivity|lra].
  - destruct Hv as (p2 & p98 & _ & _ & Hr); [discriminate|].
    do 2 eexists. split; [exact Hr|]. split; [reflexivity|].
    pose proof (Qabs_nonneg p2). pose proof (Qabs_nonneg p98).
    clamp_cases; lra.
Qed.

(** X21 at the title of an anomaly plot that holds the keyword. *)
Lemma anomaly_range_symmetric_and_capped_witness :
  str_in "LST" "UHI map" || str_in "Temperature" "UHI map" = false /\
  str_in "UHI" "UHI map" = true /\
  exists vmin vmax,
    create_simple_plot [[Some (-30); Some 1; Some 5]] "UHI map"
      = Ok (Some vmin, Some vmax) /\
    vmin == - vmax /\ 0 <= vmax <= 12.
Proof.
  split; [reflexivity|]. split; [reflexivity|].
  exact (anomaly_range_symmetric_and_capped
           [[Some (-30); Some 1; Some 5]] "UHI map" eq_refl eq_refl).
Defined.

(** X22: under the generic rule (5th to 95th percentile) the colour range
    is never inverted and lies within the extremes of the valid pixels. *)
Theorem generic_range_ordered_within_data (data : grid cell) (title : string) :
  str_in "LST" title || str_in "Temperature" title = false ->
  str_in "UHI" title = false ->
  Np.valid_values data <> [] ->
  exists vmin vmax lo hi,
    create_simple_plot data title = Ok (Some vmin, Some vmax) /\
    Np.min (Np.valid_values data) = Ok lo /\
    Np.max (Np.valid_values data) = Ok hi /\
    lo <= vmin /\ vmin <= vmax /\ vmax <= hi.
Proof.
  intros Ht Hu Hne.
  destruct (create_simple_plot_other data title Ht Hu) as [Hv _].
  destruct (Hv Hne) as (p5 & p95 & H5 & H95 & Hr).
  destruct (min_spec _ Hne) as (lo & Hlo & _ & Hlo').
  destruct (max_spec _ Hne) as (hi & Hhi & _ & Hhi').
  exists p5, p95, lo, hi. split; [exact Hr|]. split; [exact Hlo|].
  split; [exact Hhi|].
  assert (Hall : forall x, In x (Np.valid_values data) -> lo <= x <= hi)
    by (intros x Hx; split; [now apply Hlo'|now apply Hhi']).
  assert (Q5 : 0 <= 5 <= 100) by lra.
  assert (Q95 : 0 <= 95 <= 100) by lra.
  pose proof (percentile_between _ _ _ _ _ Q5 Hall H5).
  pose proof (percentile_between _ _ _ _ _ Q95 Hall H95).
  assert (p5 <= p95) by (eapply (percentile_monotone _ 5 95); eauto; lra).
  lra.
Qed.

(** X22 at a vegetation plot. *)
Lemma generic_range_ordered_within_data_witness :
  Np.valid_values [[Some (-3); Some 1; Some 5]] <> [] /\
  exists vmin vmax,
    create_simple_plot [[Some (-3); Some 1; Some 5]] "NDVI - 2020"
      = Ok (Some vmin, Some vmax) /\
    vmin <= vmax.
Proof.
  assert (Hne : Np.valid_values [[Some (-3); Some 1; Some 5]] <> [])
    by discriminate.
  split; [exact Hne|].
  destruct (generic_range_ordered_within_data
              [[Some (-3); Some 1; Some 5]] "NDVI - 2020" eq_refl eq_refl Hne)
    as (vmin & vmax & lo & hi & Hr & _ & _ & _ & Ho & _).
  exists vmin, vmax. auto.
Defined.

(** X23: under the temperature rule the lower end is at least 15 and the
    upper end at most 60, and the range is inverted exactly when the 98th
    percentile is below 15 or the 2nd above 60. *)
Theorem temperature_range_bounds (data : grid cell) (title : string) :
  str_in "LST" title || str_in "Temperature" title = true ->
  Np.valid_values data <> [] ->
  exists p2 p98 vmin vmax,
    Np.percentile (Np.valid_values data) 2 = Ok p2 /\
    Np.percentile (Np.valid_values data) 98 = Ok p98 /\
    create_simple_plot data title = Ok (Some vmin, Some vmax) /\
    15 <= vmin /\ vmax <= 60 /\
    (vmax < vmin <-> p98 < 15 \/ 60 < p2).
Proof.
  intros Ht Hne.
  destruct (create_simple_plot_temperature data title Ht) as [Hv _].
  destruct (Hv Hne) as (p2 & p98 & H2 & H98 & Hr).
  exists p2, p98. do 2 eexists. split; [exact H2|]. split; [exact H98|].
  split; [exact Hr|].
  assert (p2 <= p98) by (eapply (percentile_monotone _ 2 98); eauto; lra).
  clamp_cases; repeat split; try lra; intros; try lra;
    match goal with H : _ \/ _ |- _ => destruct H; lra end.
Qed.

(** X23 at a temperature grid whose valid pixels all lie below 15: the
    range passed to the plot is inverted. *)
Lemma temperature_range_bounds_witness :
  Np.valid_values [[Some 10; Some 11; Some 12]] <> [] /\
  exists vmin vmax,
    create_simple_plot [[Some 10; Some 11; Some 12]]
      "Land Surface Temperature - winter" = Ok (Some vmin, Some vmax) /\
    15 <= vmin /\ vmax < vmin.
Proof.
  assert (Hne : Np.valid_values [[Some 10; Some 11; Some 12]] <> [])
    by discriminate.
  split; [exact Hne|].
  destruct (temperature_range_bounds [[Some 10; Some 11; Some 12]]
              "Land Surface Temperature - winter" eq_refl Hne)
    as (p2 & p98 & vmin & vmax & H2 & H98 & Hr & Hlo & _ & Hinv).
  exists vmin, vmax. split; [exact Hr|]. split; [exact Hlo|].
  apply Hinv. left. vm_compute in H98. injection H98 as <-. reflexivity.
Defined.

(** X24: the percentile span of the temperature estimate is never
    negative, so its midpoint branch is taken exactly when the 1st and the
    99th percentile coincide. *)
Theorem lst_percentile_span_not_negative (thermal_dn : grid Z) :
  nonzero_values thermal_dn <> [] ->
  exists min_dn max_dn,
    Np.percentile (nonzero_values thermal_dn) 1 = Ok min_dn /\
    Np.percentile (nonzero_values thermal_dn) 99 = Ok max_dn /\
    0 <= max_dn - min_dn /\
    (Qltb 0 (max_dn - min_dn) = false <-> max_dn == min_dn).
Proof.
  intro Hne.
  destruct (percentile_total _ 1 Hne) as (a & Ha).
  destruct (percentile_total _ 99 Hne) as (b & Hb).
  exists a, b. split; [exact Ha|]. split; [exact Hb|].
  assert (a <= b) by (eapply (percentile_monotone _ 1 99); eauto; lra).
  split; [lra|]. rewrite Qltb_ge. split; intro; lra.
Qed.

(** X24 at the grid [[0, 5, 7, 40000]]. *)
Lemma lst_percentile_span_not_negative_witness :
  nonzero_values [[0; 5; 7; 40000]]%Z <> [] /\
  exists min_dn max_dn,
    Np.percentile (nonzero_values [[0; 5; 7; 40000]]%Z) 1 = Ok min_dn /\
    Np.percentile (nonzero_values [[0; 5; 7; 40000]]%Z) 99 = Ok max_dn /\
    0 <= max_dn - min_dn.
Proof.
  assert (Hne : nonzero_values [[0; 5; 7; 40000]]%Z <> []) by discriminate.
  split; [exact Hne|].
  destruct (lst_percentile_span_not_negative _ Hne)
    as (a & b & Ha & Hb & H & _).
  exists a, b. auto.
Defined.

(** ** Band merging: the order of the stacked bands *)

Lemma string_compare_append (p a b : string) :
  String.compare (p ++ a) (p ++ b) = String.compare a b.
Proof.
  induction p as [|c p IH]; cbn [append String.compare]; [reflexivity|].
  now rewrite ascii_compare_refl.
Qed.

Lemma string_leb_append (p a b : string) :
  String.leb (p ++ a) (p ++ b) = String.leb a b.
Proof. unfold String.leb. now rewrite string_compare_append. Qed.

Lemma insert_str_append (p x : string) (l : list string) :
  insert_str (p ++ x) (map (append p) l) = map (append p) (insert_str x l).
Proof.
  induction l as [|y l IH]; cbn [map insert_str]; [reflexivity|].
  rewrite string_leb_append. destruct (String.leb x y); cbn [map];
    [reflexivity|now rewrite IH].
Qed.

Lemma sorted_append (p : string) (l : list string) :
  sorted (map (append p) l) = map (append p) (sorted l).
Proof.
  induction l as [|x l IH]; cbn [map sorted]; [reflexivity|].
  now rewrite IH, insert_str_append.
Qed.

Lemma str_in_append (needle p rest : string) :
  str_in needle (p ++ needle ++ rest) = true.
Proof.
  induction p as [|c p IH]; cbn [append].
  - assert (H : String.prefix needle (needle ++ rest) = true).
    { clear. induction needle as [|a n IH]; cbn [append String.prefix];
        [now destruct rest|].
      destruct (ascii_dec a a); [exact IH|congruence]. }
    destruct (needle ++ rest)%string; cbn [str_in]; now rewrite H.
  - cbn [str_in]. rewrite IH. now destruct (String.prefix _ _).
Qed.

Lemma string_append_nil_r (s : string) : (s ++ "")%string = s.
Proof. induction s as [|c s IH]; cbn [append]; [reflexivity|now rewrite IH]. Qed.

Lemma band_tag_kept (scene tag : string) :
  In tag Merge.band_tags ->
  existsb (fun t => str_in t (scene ++ tag)) Merge.band_tags = true.
Proof.
  intro H. apply existsb_exists. exists tag. split; [exact H|].
  rewrite <- (string_append_nil_r tag) at 2.
  apply str_in_append.
Qed.

Lemma filter_all {A : Type} (keep : A -> bool) (l : list A) :
  (forall x, In x l -> keep x = true) -> filter keep l = l.
Proof.
  induction l as [|x l IH]; intro H; cbn [filter]; [reflexivity|].
  rewrite H by now left. f_equal. apply IH. intros y Hy. apply H. now right.
Qed.

(** X25: given the ten files [_B1.TIF] ... [_B10.TIF] of one scene, in
    whatever order the file system lists them, [merge_bands_for_row] stacks
    them in the order of their paths, not of their band numbers: B1, B10,
    B2, ..., B9.  Band 10 is written at offset 1 and offset 7 holds
    band 7. *)
Theorem merged_bands_in_path_order (scene : string) (globbed : list string) :
  Permutation globbed (Merge.by_number scene) ->
  Merge.merge_bands_for_row globbed = Some (Merge.by_path scene) /\
  nth_error (Merge.by_path scene) 1 = Some (scene ++ "_B10.TIF")%string /\
  nth_error (Merge.by_path scene) 7 = Some (scene ++ "_B7.TIF")%string.
Proof.
  intro Hp. split; [|split; reflexivity].
  unfold Merge.merge_bands_for_row, Merge.band_files.
  rewrite (sorted_permutation_eq _ _ Hp).
  unfold Merge.by_number. rewrite sorted_append.
  change (sorted Merge.band_tags)
    with ["_B1.TIF"; "_B10.TIF"; "_B2.TIF"; "_B3.TIF"; "_B4.TIF";
          "_B5.TIF"; "_B6.TIF"; "_B7.TIF"; "_B8.TIF"; "_B9.TIF"]%string.
  fold (Merge.by_path scene).
  rewrite filter_all; [reflexivity|].
  intros f Hf. unfold Merge.by_path in Hf. apply in_map_iff in Hf.
  destruct Hf as (tag & <- & Htag). apply band_tag_kept.
  cbn [In] in Htag. unfold Merge.band_tags. cbn [In]. tauto.
Qed.

(** X25 at the scene prefix LC08_045 with the files listed by number. *)
Lemma merged_bands_in_path_order_witness :
  Permutation (Merge.by_number "LC08_045") (Merge.by_number "LC08_045") /\
  Merge.merge_bands_for_row (Merge.by_number "LC08_045")
  = Some (Merge.by_path "LC08_045") /\
  nth_error (Merge.by_path "LC08_045") 1 = Some "LC08_045_B10.TIF"%string.
Proof.
  assert (Hp : Permutation (Merge.by_number "LC08_045")
                 (Merge.by_number "LC08_045")) by reflexivity.
  split; [exact Hp|].
  destruct (merged_bands_in_path_order "LC08_045" _ Hp) as (H1 & H2 & _).
  split; [exact H1|exact H2].
Defined.

(** ** True-colour preview *)

Lemma pixel_crop {A : Type} (g : grid A) (r0 r1 c0 c1 i j : nat) :
  pixel (Rgb.crop g r0 r1 c0 c1) i j =
    if (i <? r1 - r0)%nat && (j <? c1 - c0)%nat
    then pixel g (r0 + i) (c0 + j) else None.
Proof.
  unfold pixel, Rgb.crop. rewrite nth_error_map_some, nth_error_firstn.
  destruct (i <? r1 - r0)%nat; cbn [andb option_map]; [|reflexivity].
  rewrite nth_error_skipn.
  destruct (nth_error g (r0 + i)) as [row|]; cbn [option_map].
  - rewrite nth_error_firstn, nth_error_skipn. reflexivity.
  - now destruct (j <? c1 - c0)%nat.
Qed.

Lemma in_where_row (i j0 : nat) (row : list bool) (p : nat * nat) :
  In p (Rgb.where_row i j0 row) <->
  exists k, p = (i, (j0 + k)%nat) /\ nth_error row k = Some true.
Proof.
  revert j0. induction row as [|b row IH]; intro j0; cbn [Rgb.where_row].
  - split; [contradiction|]. intros (k & _ & H). now destruct k.
  - rewrite in_app_iff, IH. split.
    + intros [H|(k & -> & H)].
      * destruct b; [|contradiction]. destruct H as [<-|[]].
        exists 0%nat. rewrite Nat.add_0_r. auto.
      * exists (S k). rewrite Nat.add_succ_r. auto.
    + intros ([|k] & -> & H); cbn [nth_error] in H.
      * injection H as ->. left. rewrite Nat.add_0_r. now left.
      * right. exists k. rewrite Nat.add_succ_r. auto.
Qed.

Lemma in_where_from (i0 : nat) (mask : grid bool) (p : nat * nat) :
  In p (Rgb.where_from i0 mask) <->
  exists k, fst p = (i0 + k)%nat /\ pixel mask k (snd p) = Some true.
Proof.
  revert i0. induction mask as [|row mask IH]; intro i0;
    cbn [Rgb.where_from].
  - split; [contradiction|]. intros (k & _ & H). unfold pixel in H.
    now destruct k.
  - rewrite in_app_iff, in_where_row, IH. split.
    + intros [(k & -> & H)|(k & E & H)].
      * exists 0%nat. cbn [fst snd]. rewrite Nat.add_0_r. auto.
      * exists (S k). rewrite Nat.add_succ_r. auto.
    + intros ([|k] & E & H); unfold pixel in H; cbn [nth_error] in H.
      * left. exists (snd p). rewrite Nat.add_0_r in E.
        destruct p as [a b]. cbn [fst snd] in *. subst. auto.
      * right. exists k. rewrite Nat.add_succ_r in E. auto.
Qed.

Lemma in_np_where (mask : grid bool) (i j : nat) :
  In (i, j) (Rgb.np_where mask) <-> pixel mask i j = Some true.
Proof.
  unfold Rgb.np_where. rewrite in_where_from. cbn [fst snd]. split.
  - intros (k & -> & H). exact H.
  - intro H. exists i. auto.
Qed.

Lemma count_true_pixel (mask : grid bool) (i j : nat) :
  pixel mask i j = Some true -> Rgb.count_true mask <> 0%nat.
Proof.
  intro H. apply pixel_in_ravel in H. unfold Rgb.count_true.
  assert (Hf : In true (filter (fun b : bool => b) (ravel mask)))
    by (apply filter_In; auto).
  destruct (filter _ _); [contradiction|discriminate].
Qed.

Lemma int_min_spec (l : list Z) (m : Z) :
  int_min l = Ok m -> forall z, In z l -> (m <= z)%Z.
Proof.
  destruct l as [|x l]; [discriminate|]. cbn [int_min]. intro H.
  injection H as <-. revert x.
  induction l as [|y l IH]; intros x z Hz; cbn [fold_left].
  - destruct Hz as [<-|[]]. lia.
  - assert (Hm : (fold_left Z.min l (Z.min x y) <= Z.min x y)%Z)
      by (apply IH; now left).
    destruct Hz as [<-|[<-|Hz]]; [lia|lia|].
    apply IH. now right.
Qed.

Lemma int_max_spec (l : list Z) (m : Z) :
  int_max l = Ok m -> forall z, In z l -> (z <= m)%Z.
Proof.
  destruct l as [|x l]; [discriminate|]. cbn [int_max]. intro H.
  injection H as <-. revert x.
  induction l as [|y l IH]; intros x z Hz; cbn [fold_left].
  - destruct Hz as [<-|[]]. lia.
  - assert (Hm : (Z.max x y <= fold_left Z.max l (Z.max x y))%Z)
      by (apply IH; now left).
    destruct Hz as [<-|[<-|Hz]]; [lia|lia|].
    apply IH. now right.
Qed.

Lemma stretch_cell_displayable (p2 p98 x : Q) :
  Rgb.displayable (Rgb.stretch_cell p2 p98 x).
Proof.
  unfold Rgb.stretch_cell, Rgb.displayable.
  destruct (Qeq_bool (p98 - p2) 0).
  - destruct (Qltb p2 x); [lra|]. destruct (Qltb x p2); [lra|exact I].
  - apply clamp_bounds. lra.
Qed.

Lemma simple_stretch_pixel (band : grid Q) (mask : grid bool)
  (out : grid cell) (i j : nat) (c : cell) :
  Rgb.simple_stretch band mask = Ok out ->
  Rgb.count_true mask <> 0%nat ->
  pixel out i j = Some c ->
  exists p2 p98 x,
    pixel band i j = Some x /\ c = Rgb.stretch_cell p2 p98 x.
Proof.
  unfold Rgb.simple_stretch. intros H Hc Hp.
  apply Nat.eqb_neq in Hc. rewrite Hc in H. bind_ok H.
  injection H as <-. rewrite pixel_grid_map in Hp.
  destruct (pixel band i j) as [x|]; [|discriminate].
  injection Hp as <-. eauto.
Qed.

Lemma simple_stretch_shape (band : grid Q) (mask : grid bool)
  (out : grid cell) (i j : nat) :
  Rgb.simple_stretch band mask = Ok out ->
  (pixel out i j = None <-> pixel band i j = None).
Proof.
  unfold Rgb.simple_stretch. intro H.
  destruct (Rgb.count_true mask =? 0)%nat.
  - injection H as <-. rewrite pixel_grid_map.
    destruct (pixel band i j); cbn [option_map]; split; congruence.
  - bind_ok H. injection H as <-. rewrite pixel_grid_map.
    destruct (pixel band i j); cbn [option_map]; split; congruence.
Qed.

Lemma render_pixel (red green blue : grid Q) (mask : grid bool)
  (r0 r1 c0 c1 : Z) (img : grid Rgb.colour) :
  Rgb.render red green blue mask (r0, r1, c0, c1) = Ok img ->
  exists rs gs bs,
    let crop_of {A : Type} (g : grid A) :=
      Rgb.crop g (Z.to_nat r0) (Z.to_nat r1) (Z.to_nat c0) (Z.to_nat c1) in
    Rgb.simple_stretch (crop_of red) (crop_of mask) = Ok rs /\
    Rgb.simple_stretch (crop_of green) (crop_of mask) = Ok gs /\
    Rgb.simple_stretch (crop_of blue) (crop_of mask) = Ok bs /\
    forall i j,
      pixel img i j =
        match pixel rs i j, pixel gs i j, pixel bs i j,
              pixel (crop_of mask) i j with
        | Some r, Some g, Some b, Some valid =>
            Some (if valid then (r, g, b) else Rgb.white)
        | _, _, _, _ => None
        end.
Proof.
  unfold Rgb.render. cbv beta iota zeta.
  set (valid_crop := Rgb.crop mask _ _ _ _).
  destruct (Rgb.simple_stretch (Rgb.crop red _ _ _ _) _) as [rs|];
    cbn [bind]; [|discriminate].
  destruct (Rgb.simple_stretch (Rgb.crop green _ _ _ _) _) as [gs|];
    cbn [bind]; [|discriminate].
  destruct (Rgb.simple_stretch (Rgb.crop blue _ _ _ _) _) as [bs|];
    cbn [bind]; [|discriminate].
  intro H. injection H as <-. exists rs, gs, bs.
  split; [reflexivity|]. split; [reflexivity|]. split; [reflexivity|].
  intros i j. rewrite !pixel_grid_map2.
  destruct (pixel rs i j), (pixel gs i j), (pixel bs i j),
    (pixel valid_crop i j); reflexivity.
Qed.

Lemma create_simple_rgb_inv (w : World) (input_path : string)
  (img : grid Rgb.colour) :
  Rgb.create_simple_rgb w input_path = Some img ->
  exists bands red green blue area,
    rasterio_read w input_path = Ok bands /\
    Rgb.read_band bands 4 = Ok red /\
    Rgb.read_band bands 3 = Ok green /\
    Rgb.read_band bands 2 = Ok blue /\
    let mask :=
      Rgb.valid_mask (grid_map Rgb.astype_float32 red)
        (grid_map Rgb.astype_float32 green)
        (grid_map Rgb.astype_float32 blue) in
    Rgb.count_true mask <> 0%nat /\
    Rgb.study_area mask (Rgb.height (grid_map Rgb.astype_float32 red))
      (Rgb.width (grid_map Rgb.astype_float32 red)) = Ok area /\
    Rgb.render (grid_map Rgb.astype_float32 red)
      (grid_map Rgb.astype_float32 green)
      (grid_map Rgb.astype_float32 blue) mask area = Ok img.
Proof.
  unfold Rgb.create_simple_rgb. cbv zeta.
  destruct (rasterio_read w input_path) as [bands|] eqn:E0; cbn [bind];
    [|discriminate].
  destruct (Rgb.read_band bands 4) as [red|] eqn:E4; cbn [bind];
    [|discriminate].
  destruct (Rgb.read_band bands 3) as [green|] eqn:E3; cbn [bind];
    [|discriminate].
  destruct (Rgb.read_band bands 2) as [blue|] eqn:E2; cbn [bind];
    [|discriminate].
  destruct (0 <? _)%nat eqn:Hc; [|discriminate].
  destruct (Rgb.study_area _ _ _) as [area|] eqn:Ea; cbn [bind];
    [|discriminate].
  destruct (Rgb.render _ _ _ _ _) as [rgb|] eqn:Er; cbn [bind];
    [|discriminate].
  intro H. injection H as <-.
  exists bands, red, green, blue, area.
  apply Nat.ltb_lt in Hc. split; [reflexivity|].
  do 3 (split; [assumption|]). split; [lia|]. split; assumption.
Qed.

(** X26: whenever [create_simple_rgb] hands an image to [plt.imshow], each
    of the three channels of each of its pixels is nan or lies between 0
    and 1: the stretched values are clipped, and the pixels outside the
    valid mask are white. *)
Theorem rgb_channels_displayable (w : World) (input_path : string)
  (img : grid Rgb.colour) (i j : nat) (r g b : cell) :
  Rgb.create_simple_rgb w input_path = Some img ->
  pixel img i j = Some (r, g, b) ->
  Rgb.displayable r /\ Rgb.displayable g /\ Rgb.displayable b.
Proof.
  intros H Hp.
  destruct (create_simple_rgb_inv _ _ _ H)
    as (bands & red & green & blue & [[[r0 r1] c0] c1] & _ & _ & _ & _ & Hr).
  cbv zeta in Hr. destruct Hr as (_ & _ & Hr).
  destruct (render_pixel _ _ _ _ _ _ _ _ _ Hr)
    as (rs & gs & bs & Hrs & Hgs & Hbs & Hpix).
  cbv zeta in Hrs, Hgs, Hbs, Hpix. rewrite Hpix in Hp. clear Hpix.
  destruct (pixel rs i j) as [r'|] eqn:Er; [|discriminate].
  destruct (pixel gs i j) as [g'|] eqn:Eg; [|discriminate].
  destruct (pixel bs i j) as [b'|] eqn:Eb; [|discriminate].
  destruct (pixel (Rgb.crop _ _ _ _ _) i j) as [[|]|] eqn:Ev;
    [| |discriminate]; injection Hp as <- <- <-.
  - apply count_true_pixel in Ev.
    destruct (simple_stretch_pixel _ _ _ _ _ _ Hrs Ev Er)
      as (? & ? & ? & _ & ->).
    destruct (simple_stretch_pixel _ _ _ _ _ _ Hgs Ev Eg)
      as (? & ? & ? & _ & ->).
    destruct (simple_stretch_pixel _ _ _ _ _ _ Hbs Ev Eb)
      as (? & ? & ? & _ & ->).
    auto using stretch_cell_displayable.
  - cbn. lra.
Qed.

Lemma rgb_channels_displayable_witness :
  Rgb.displayable (Some 1) /\ Rgb.displayable nan /\ Rgb.displayable nan.
Proof.
  destruct (rgb_channels_displayable corner_world "scene.tif"
              [[Rgb.white; Rgb.white; Rgb.white];
               [Rgb.white; Rgb.white; (nan, nan, nan)]]
              1 2 nan nan nan eq_refl eq_refl) as (_ & Hg & Hb).
  destruct (rgb_channels_displayable corner_world "scene.tif"
              [[Rgb.white; Rgb.white; Rgb.white];
               [Rgb.white; Rgb.white; (nan, nan, nan)]]
              0 0 (Some 1) (Some 1) (Some 1) eq_refl eq_refl) as (Hr & _).
  exact (conj Hr (conj Hg Hb)).
Defined.

Lemma int_min_total (l : list Z) : l <> [] -> exists m, int_min l = Ok m.
Proof. destruct l; [congruence|]. intros _. eexists. reflexivity. Qed.

Lemma int_max_total (l : list Z) : l <> [] -> exists m, int_max l = Ok m.
Proof. destruct l; [congruence|]. intros _. eexists. reflexivity. Qed.

Lemma in_ravel_pixel {A : Type} (g : grid A) (a : A) :
  In a (ravel g) -> exists i j, pixel g i j = Some a.
Proof.
  unfold ravel, pixel. intro H. apply in_concat in H.
  destruct H as (row & Hrow & Ha).
  apply In_nth_error in Hrow. destruct Hrow as [i Hi].
  apply In_nth_error in Ha. destruct Ha as [j Hj].
  exists i, j. now rewrite Hi.
Qed.

Lemma count_true_positive (mask : grid bool) :
  Rgb.count_true mask <> 0%nat -> exists i j, pixel mask i j = Some true.
Proof.
  unfold Rgb.count_true. intro H. apply in_ravel_pixel.
  destruct (filter _ (ravel mask)) as [|b l] eqn:E; [contradiction|].
  assert (Hb : In b (filter (fun b : bool => b) (ravel mask)))
    by (rewrite E; now left).
  apply filter_In in Hb. destruct Hb as [Hin ->]. exact Hin.
Qed.

Lemma valid_mask_pixel (red green blue : grid Z) (i j : nat) :
  pixel (Rgb.valid_mask (grid_map Rgb.astype_float32 red)
           (grid_map Rgb.astype_float32 green)
           (grid_map Rgb.astype_float32 blue)) i j = Some true <->
  exists x y z,
    pixel red i j = Some x /\ pixel green i j = Some y /\
    pixel blue i j = Some z /\ (0 < x)%Z /\ (0 < y)%Z /\ (0 < z)%Z.
Proof.
  unfold Rgb.valid_mask, Rgb.astype_float32.
  rewrite !pixel_grid_map2, !pixel_grid_map.
  assert (Hpos : forall v : Z, Qltb 0 (inject_Z v) = true <-> (0 < v)%Z).
  { intro v. rewrite Qltb_lt. change 0 with (inject_Z 0).
    rewrite <- Zlt_Qlt. reflexivity. }
  destruct (pixel red i j) as [x|], (pixel green i j) as [y|],
    (pixel blue i j) as [z|]; cbn [option_map];
    try (split; [discriminate|intros (? & ? & ? & ? & ? & ? & _); discriminate]).
  split.
  - intro H. injection H as H. apply andb_true_iff in H.
    destruct H as [H Hz]. apply andb_true_iff in H. destruct H as [Hx Hy].
    exists x, y, z. rewrite <- !Hpos. auto 10.
  - intros (x' & y' & z' & Ex & Ey & Ez & Hx & Hy & Hz).
    injection Ex as <-. injection Ey as <-. injection Ez as <-.
    apply Hpos in Hx, Hy, Hz. now rewrite Hx, Hy, Hz.
Qed.

Lemma study_area_covers (mask : grid bool) (shape0 shape1 i j : nat) :
  pixel mask i j = Some true -> (i < shape0)%nat -> (j < shape1)%nat ->
  exists r0 r1 c0 c1,
    Rgb.study_area mask shape0 shape1 = Ok (r0, r1, c0, c1) /\
    (0 <= r0 <= Z.of_nat i)%Z /\
    (Z.of_nat i < r1 <= Z.of_nat shape0)%Z /\
    (0 <= c0 <= Z.of_nat j)%Z /\
    (Z.of_nat j < c1 <= Z.of_nat shape1)%Z.
Proof.
  intros Hp Hi Hj. apply in_np_where in Hp. unfold Rgb.study_area. cbv zeta.
  set (rows := map (fun p : nat * nat => Z.of_nat (fst p)) _).
  set (cols := map (fun p : nat * nat => Z.of_nat (snd p)) _).
  assert (Hrow : In (Z.of_nat i) rows)
    by (apply (in_map (fun p : nat * nat => Z.of_nat (fst p)) _ _ Hp)).
  assert (Hcol : In (Z.of_nat j) cols)
    by (apply (in_map (fun p : nat * nat => Z.of_nat (snd p)) _ _ Hp)).
  assert (Hrows : rows <> []) by (intro E; rewrite E in Hrow; contradiction).
  assert (Hcols : cols <> []) by (intro E; rewrite E in Hcol; contradiction).
  destruct (int_min_total _ Hrows) as [rmin Ermin].
  destruct (int_max_total _ Hrows) as [rmax Ermax].
  destruct (int_min_total _ Hcols) as [cmin Ecmin].
  destruct (int_max_total _ Hcols) as [cmax Ecmax].
  rewrite Ermin, Ermax, Ecmin, Ecmax. cbn [bind].
  pose proof (int_min_spec _ _ Ermin _ Hrow).
  pose proof (int_max_spec _ _ Ermax _ Hrow).
  pose proof (int_min_spec _ _ Ecmin _ Hcol).
  pose proof (int_max_spec _ _ Ecmax _ Hcol).
  do 4 eexists. split; [reflexivity|]. lia.
Qed.

(** X27: the study area never cuts a valid pixel away.  For a mask with a
    true pixel at [(i, j)] inside the image shape, the bounds of lines 24-33
    are computed without an exception, start at or before the pixel, and the
    cropped mask of line 39 still holds that pixel, moved by the offsets of
    the crop. *)
Theorem study_area_keeps_valid_pixels (mask : grid bool)
  (shape0 shape1 i j : nat) :
  pixel mask i j = Some true -> (i < shape0)%nat -> (j < shape1)%nat ->
  exists r0 r1 c0 c1,
    Rgb.study_area mask shape0 shape1 = Ok (r0, r1, c0, c1) /\
    (Z.to_nat r0 <= i)%nat /\ (Z.to_nat c0 <= j)%nat /\
    pixel (Rgb.crop mask (Z.to_nat r0) (Z.to_nat r1) (Z.to_nat c0)
             (Z.to_nat c1)) (i - Z.to_nat r0) (j - Z.to_nat c0) = Some true.
Proof.
  intros Hp Hi Hj.
  destruct (study_area_covers mask shape0 shape1 i j Hp Hi Hj)
    as (r0 & r1 & c0 & c1 & Ha & Hr0 & Hr1 & Hc0 & Hc1).
  exists r0, r1, c0, c1. split; [exact Ha|].
  split; [lia|]. split; [lia|]. rewrite pixel_crop.
  replace (i - Z.to_nat r0 <? Z.to_nat r1 - Z.to_nat r0)%nat with true
    by (symmetry; apply Nat.ltb_lt; lia).
  replace (j - Z.to_nat c0 <? Z.to_nat c1 - Z.to_nat c0)%nat with true
    by (symmetry; apply Nat.ltb_lt; lia).
  cbn [andb].
  replace (Z.to_nat r0 + (i - Z.to_nat r0))%nat with i by lia.
  replace (Z.to_nat c0 + (j - Z.to_nat c0))%nat with j by lia.
  exact Hp.
Qed.

Lemma study_area_keeps_valid_pixels_witness :
  exists r0 r1 c0 c1,
    Rgb.study_area [[false; false; false]; [false; false; true]] 2 3
      = Ok (r0, r1, c0, c1) /\
    (Z.to_nat r0 <= 1)%nat /\ (Z.to_nat c0 <= 2)%nat /\
    pixel (Rgb.crop [[false; false; false]; [false; false; true]]
             (Z.to_nat r0) (Z.to_nat r1) (Z.to_nat c0) (Z.to_nat c1))
      (1 - Z.to_nat r0) (2 - Z.to_nat c0) = Some true.
Proof.
  apply (study_area_keeps_valid_pixels
           [[false; false; false]; [false; false; true]] 2 3 1 2);
    [reflexivity|lia|lia].
Defined.

(** X28: [create_simple_rgb] produces an image only for a raster it can
    read whose bands 4, 3 and 2 have a pixel that is positive in all three;
    a raster without such a pixel, or with fewer than four bands, gives no
    image. *)
Theorem rgb_image_needs_valid_pixel (w : World) (input_path : string)
  (img : grid Rgb.colour) :
  Rgb.create_simple_rgb w input_path = Some img ->
  exists bands red green blue i j x y z,
    rasterio_read w input_path = Ok bands /\
    nth_error bands 3 = Some red /\
    nth_error bands 2 = Some green /\
    nth_error bands 1 = Some blue /\
    pixel red i j = Some x /\ pixel green i j = Some y /\
    pixel blue i j = Some z /\ (0 < x)%Z /\ (0 < y)%Z /\ (0 < z)%Z.
Proof.
  intro H.
  destruct (create_simple_rgb_inv _ _ _ H)
    as (bands & red & green & blue & area & E0 & E4 & E3 & E2 & Hm).
  cbv zeta in Hm. destruct Hm as (Hc & _ & _).
  apply count_true_positive in Hc. destruct Hc as (i & j & Hp).
  apply valid_mask_pixel in Hp.
  destruct Hp as (x & y & z & Hx & Hy & Hz & Hpos).
  exists bands, red, green, blue, i, j, x, y, z.
  unfold Rgb.read_band, getitem in E4, E3, E2. cbn [Nat.sub] in E4, E3, E2.
  destruct (nth_error bands 3); [injection E4 as ->|discriminate].
  destruct (nth_error bands 2); [injection E3 as ->|discriminate].
  destruct (nth_error bands 1); [injection E2 as ->|discriminate].
  auto 10.
Qed.

Lemma rgb_image_needs_valid_pixel_witness :
  exists bands red green blue i j x y z,
    rasterio_read corner_world "scene.tif" = Ok bands /\
    nth_error bands 3 = Some red /\
    nth_error bands 2 = Some green /\
    nth_error bands 1 = Some blue /\
    pixel red i j = Some x /\ pixel green i j = Some y /\
    pixel blue i j = Some z /\ (0 < x)%Z /\ (0 < y)%Z /\ (0 < z)%Z.
Proof.
  apply (rgb_image_needs_valid_pixel corner_world "scene.tif"
           [[Rgb.white; Rgb.white; Rgb.white];
            [Rgb.white; Rgb.white; (nan, nan, nan)]]).
  reflexivity.
Defined.

Lemma stretch_cell_monotone (p2 p98 x y u v : Q) :
  p2 <= p98 -> x <= y ->
  Rgb.stretch_cell p2 p98 x = Some u -> Rgb.stretch_cell p2 p98 y = Some v ->
  u <= v.
Proof.
  intros Hp Hxy. unfold Rgb.stretch_cell.
  destruct (Qeq_bool (p98 - p2) 0) eqn:E.
  - destruct (Qltb p2 x) eqn:E1.
    + apply Qltb_lt in E1. assert (E2 : Qltb p2 y = true)
        by (apply Qltb_lt; lra).
      rewrite E2. intros Hu Hv. injection Hu as <-. injection Hv as <-. lra.
    + destruct (Qltb x p2); [|discriminate]. intro Hu. injection Hu as <-.
      destruct (Qltb p2 y); [intro Hv; injection Hv as <-; lra|].
      destruct (Qltb y p2); [|discriminate].
      intro Hv. injection Hv as <-. lra.
  - apply Qeq_bool_neq in E. intros Hu Hv.
    injection Hu as <-. injection Hv as <-.
    assert (Hinv : 0 <= / (p98 - p2)) by (apply Qinv_le_0_compat; lra).
    assert (Hq : (x - p2) / (p98 - p2) <= (y - p2) / (p98 - p2))
      by (apply Qmult_le_compat_r; [lra|exact Hinv]).
    set (a := (x - p2) / (p98 - p2)) in *.
    set (b := (y - p2) / (p98 - p2)) in *.
    clamp_cases; lra.
Qed.

(** X29: the contrast stretch of lines 42-51 keeps the order of the band
    values: of two pixels of a band, the one with the larger value is never
    the darker one after the stretch, whenever both stretched values are
    numbers. *)
Theorem stretch_preserves_order (band : grid Q) (mask : grid bool)
  (out : grid cell) (i j i' j' : nat) (x y u v : Q) :
  Rgb.simple_stretch band mask = Ok out ->
  pixel band i j = Some x -> pixel band i' j' = Some y -> x <= y ->
  pixel out i j = Some (Some u) -> pixel out i' j' = Some (Some v) ->
  u <= v.
Proof.
  unfold Rgb.simple_stretch. intros H Hx Hy Hxy Hu Hv.
  destruct (Rgb.count_true mask =? 0)%nat.
  - injection H as <-. rewrite pixel_grid_map in Hu, Hv.
    rewrite Hx in Hu. rewrite Hy in Hv. cbn [option_map] in Hu, Hv.
    injection Hu as <-. injection Hv as <-. exact Hxy.
  - destruct (Np.percentile _ 2) as [p2|] eqn:E2; cbn [bind] in H;
      [|discriminate].
    destruct (Np.percentile _ 98) as [p98|] eqn:E98; cbn [bind] in H;
      [|discriminate].
    injection H as <-. rewrite pixel_grid_map in Hu, Hv.
    rewrite Hx in Hu. rewrite Hy in Hv. cbn [option_map] in Hu, Hv.
    injection Hu as Hu. injection Hv as Hv.
    assert (Hp : p2 <= p98)
      by (apply (percentile_monotone _ 2 98 _ _) with (4 := E2) (5 := E98);
          lra).
    exact (stretch_cell_monotone _ _ _ _ _ _ Hp Hxy Hu Hv).
Qed.

Lemma stretch_preserves_order_witness :
  9400000 # 38800000 <= 29400000 # 38800000.
Proof.
  apply (stretch_preserves_order [[10; 20]; [40; 50]]
           [[true; true]; [true; true]]
           [[Some 0; Some (9400000 # 38800000)];
            [Some (29400000 # 38800000); Some 1]] 0 1 1 0 20 40);
    [vm_compute; reflexivity|reflexivity|reflexivity|lra
    |reflexivity|reflexivity].
Defined.

(** ** Batch driver: exception isolation *)












(** ** Heat anomaly: zero is a median of the anomalies *)

Lemma median_unfold (a : list Q) :
  a <> [] ->
  Np.median a =
    if Nat.even (length a)
    then Some ((nth (length a / 2 - 1) (Np.sort a) 0
                + nth (length a / 2) (Np.sort a) 0) / 2)
    else Some (nth (length a / 2) (Np.sort a) 0).
Proof. destruct a; [congruence|reflexivity]. Qed.

(** The median lies between the two middle values of the sorted array. *)
Lemma median_between_middles (a : list Q) (m : Q) :
  Np.median a = Some m ->
  exists k,
    (k <= length a / 2)%nat /\ (length a <= 2 * (k + 1))%nat /\
    nth k (Np.sort a) 0 <= m <= nth (length a / 2) (Np.sort a) 0.
Proof.
  intro Hm. assert (Hne : a <> []) by (intros ->; discriminate).
  rewrite (median_unfold _ Hne) in Hm.
  assert (Hn : (0 < length a)%nat)
    by (destruct a; [congruence|cbn [length]; lia]).
  destruct (Nat.even (length a)) eqn:Ev.
  - apply Nat.even_spec in Ev. destruct Ev as [h Hh].
    assert (Hd : (length a / 2 = h)%nat)
      by (rewrite Hh, Nat.mul_comm; apply Nat.div_mul; lia).
    exists (length a / 2 - 1)%nat.
    split; [lia|]. split; [lia|].
    assert (Hs : nth (length a / 2 - 1) (Np.sort a) 0
                 <= nth (length a / 2) (Np.sort a) 0).
    { apply sorted_nth_le; [apply sort_sorted|lia|].
      rewrite sort_length. lia. }
    assert (E : m = (nth (length a / 2 - 1) (Np.sort a) 0
                     + nth (length a / 2) (Np.sort a) 0) / 2) by congruence.
    rewrite E.
    set (lower := nth (length a / 2 - 1) (Np.sort a) 0) in *.
    set (upper := nth (length a / 2) (Np.sort a) 0) in *.
    split; [apply Qle_shift_div_l|apply Qle_shift_div_r]; lra.
  - exists (length a / 2)%nat. split; [lia|].
    pose proof (Nat.div_mod_eq (length a) 2) as Hd.
    pose proof (Nat.mod_upper_bound (length a) 2) as Hr.
    split; [lia|].
    assert (E : m = nth (length a / 2) (Np.sort a) 0) by congruence.
    rewrite E. lra.
Qed.

(** Counting the values that pass a test. *)
Lemma count_range (keep : Q -> bool) (s : list Q) (a b : nat) :
  (forall i, (a <= i < b)%nat -> keep (nth i s 0) = true) ->
  (b <= length s)%nat ->
  (b - a <= length (filter keep s))%nat.
Proof.
  revert a b. induction s as [|x s IH]; intros a b Hall Hb;
    cbn [length filter] in *; [lia|].
  destruct b as [|b]; [lia|].
  destruct a as [|a].
  - assert (Hx : keep x = true) by (apply (Hall 0%nat); lia).
    rewrite Hx. cbn [length].
    assert (H : (b - 0 <= length (filter keep s))%nat).
    { apply IH; [|lia]. intros i Hi. apply (Hall (S i)). lia. }
    lia.
  - assert (H : (b - a <= length (filter keep s))%nat).
    { apply IH; [|lia]. intros i Hi. apply (Hall (S i)). lia. }
    destruct (keep x); cbn [length]; lia.
Qed.

Lemma count_permutation (keep : Q -> bool) (values values' : list Q) :
  Permutation values values' ->
  length (filter keep values) = length (filter keep values').
Proof.
  induction 1 as [|x l l' _ IH|x y l|l l' l'' _ IH1 _ IH2]; cbn [filter].
  - reflexivity.
  - destruct (keep x); cbn [length]; now rewrite IH.
  - destruct (keep x), (keep y); reflexivity.
  - congruence.
Qed.

Lemma count_map (keep : Q -> bool) (f : Q -> Q) (values : list Q) :
  length (filter keep (map f values))
  = length (filter (fun y => keep (f y)) values).
Proof.
  induction values as [|x l IH]; cbn [map filter]; [reflexivity|].
  destruct (keep (f x)); cbn [length]; now rewrite IH.
Qed.

(** At least half of the values are at or below the median, and at least
    half are at or above it. *)
Lemma median_splits (a : list Q) (m : Q) :
  Np.median a = Some m ->
  (length a <= 2 * length (filter (fun y => Qle_bool y m) a))%nat /\
  (length a <= 2 * length (filter (fun y => Qle_bool m y) a))%nat.
Proof.
  intro Hm.
  destruct (median_between_middles _ _ Hm) as (k & Hk & Hn & Hlo & Hhi).
  assert (Hne : a <> []) by (intros ->; discriminate).
  assert (Hlen : (0 < length a)%nat)
    by (destruct a; [congruence|cbn [length]; lia]).
  assert (Hhalf : (length a / 2 < length a)%nat) by (apply Nat.div_lt; lia).
  rewrite !(count_permutation _ _ _ (sort_perm a)).
  pose proof (sort_sorted a) as Hs.
  pose proof (sort_length a) as Hl.
  split.
  - assert (H : (k + 1 - 0 <= length (filter (fun y => Qle_bool y m)
                                        (Np.sort a)))%nat).
    { apply count_range; [|lia]. intros i Hi. apply Qle_bool_iff.
      apply Qle_trans with (nth k (Np.sort a) 0); [|exact Hlo].
      apply sorted_nth_le; [exact Hs|lia|lia]. }
    lia.
  - assert (H : (length a - length a / 2
                 <= length (filter (fun y => Qle_bool m y) (Np.sort a)))%nat).
    { apply count_range; [|lia]. intros i Hi. apply Qle_bool_iff.
      apply Qle_trans with (nth (length a / 2) (Np.sort a) 0); [exact Hhi|].
      apply sorted_nth_le; [exact Hs|lia|lia]. }
    pose proof (Nat.div_mod_eq (length a) 2).
    pose proof (Nat.mod_upper_bound (length a) 2). lia.
Qed.

(** X7: zero is a median of the anomalies.  For a grid with a valid pixel,
    at least half of the valid anomalies are at or below zero and at least
    half are at or above zero. *)
Theorem uhi_half_on_each_side_of_zero (lst_data : grid cell) :
  Np.valid_values lst_data <> [] ->
  exists uhi,
    simple_uhi_calculation lst_data = Ok uhi /\
    let anomalies := Np.valid_values uhi in
    (length anomalies
     <= 2 * length (filter (fun x => Qle_bool x 0) anomalies))%nat /\
    (length anomalies
     <= 2 * length (filter (fun x => Qle_bool 0 x) anomalies))%nat.
Proof.
  intro Hne.
  destruct (simple_uhi_calculation_nonempty _ Hne) as (m & Hm & Hout).
  eexists. split; [exact Hout|]. cbv zeta.
  rewrite uhi_as_translation, valid_values_translate.
  rewrite !count_map, length_map.
  destruct (median_splits _ _ Hm) as [Hlow Hhigh].
  assert (Elow : forall y, Qle_bool (y + - m) 0 = Qle_bool y m).
  { intro y. destruct (Qle_bool y m) eqn:E.
    - apply Qle_bool_iff in E. apply Qle_bool_iff. lra.
    - destruct (Qle_bool (y + - m) 0) eqn:E'; [|reflexivity].
      apply Qle_bool_iff in E'. assert (H : y <= m) by lra.
      apply Qle_bool_iff in H. congruence. }
  assert (Ehigh : forall y, Qle_bool 0 (y + - m) = Qle_bool m y).
  { intro y. destruct (Qle_bool m y) eqn:E.
    - apply Qle_bool_iff in E. apply Qle_bool_iff. lra.
    - destruct (Qle_bool 0 (y + - m)) eqn:E'; [|reflexivity].
      apply Qle_bool_iff in E'. assert (H : m <= y) by lra.
      apply Qle_bool_iff in H. congruence. }
  rewrite (filter_ext _ _ Elow), (filter_ext _ _ Ehigh). auto.
Qed.

(** X7 at the grid [[20, nan], [30, 25]]: the anomalies are -5, 5 and 0. *)
Lemma uhi_half_on_each_side_of_zero_witness :
  Np.valid_values [[Some 20; nan]; [Some 30; Some 25]] <> [] /\
  exists uhi,
    simple_uhi_calculation [[Some 20; nan]; [Some 30; Some 25]] = Ok uhi /\
    (length (Np.valid_values uhi)
     <= 2 * length (filter (fun x => Qle_bool x 0) (Np.valid_values uhi)))%nat.
Proof.
  assert (Hne : Np.valid_values [[Some 20; nan]; [Some 30; Some 25]] <> [])
    by discriminate.
  split; [exact Hne|].
  destruct (uhi_half_on_each_side_of_zero _ Hne) as (uhi & Hu & Hlow & _).
  exists uhi. split; [exact Hu|exact Hlow].
Defined.
